(** * Pioneer Detection Method: weights and pooled forecast

    A shallow embedding of [src/pdm.py] ([compute_pioneer_weights_simple] and
    [pooled_forecast_simple]) and the proofs of its specification.

    Modelling choices, all taken from the source:

    - A pandas float cell is a [cell := option Q]: [None] is NaN (the
      "undefined" of the specification), [Some q] a finite value, as in the
      data model of the specification (real-valued entries that may be
      undefined).  Arithmetic on these cells is exact: this is the method as
      the source writes it down, without the rounding, the overflow and the
      infinities of binary64.  Values are compared with [Qeq] ([==]), lifted
      to cells by [ceq].  What the source computes in binary64 is embedded
      separately (module [F64]), and the properties that rounding decides
      are stated there.
    - A [DataFrame] is a number of columns and a list of rows (periods);
      row and column labels are positions, so labels are unique and two frames
      of the same shape are aligned.  A [Series] is a list of cells, one per
      period.
    - NaN-aware pandas reductions ([sum], [mean] along [axis=1]) skip NaN,
      with the [min_count] the source passes.
    - The vectorised expressions of the source are pure; they are embedded as
      functions on frames.  The two in-place updates of the source
      ([m_minus[col] = ...] and [pooled[no_pioneer] = ...]) and the copies
      it makes are modelled a second time over an explicit object store
      (module [Heap]), which is proved to compute the pure functions and to
      leave every object that existed before the call untouched. *)

From Stdlib Require Import QArith Qabs List Lia Bool Arith.
From Stdlib Require Floats Uint63.
Import ListNotations.

(** ** NaN-aware scalars *)

Definition cell := option Q.

Definition nan : cell := None.

Definition Qlt_bool (x y : Q) : bool := negb (Qle_bool y x).

Definition cell_lift2 (f : Q -> Q -> Q) (a b : cell) : cell :=
  match a, b with
  | Some x, Some y => Some (f x y)
  | _, _ => None
  end.

Definition c_add : cell -> cell -> cell := cell_lift2 Qplus.
Definition c_sub : cell -> cell -> cell := cell_lift2 Qminus.
Definition c_mul : cell -> cell -> cell := cell_lift2 Qmult.
Definition c_abs (a : cell) : cell := option_map Qabs a.

(** Float division.  [0 / 0] is NaN.  IEEE gives an infinity for [x / 0] with
    [x <> 0]; the model has none and answers NaN there
    (lemmas [proportion_division_exact] and [normalise_divisor_nonzero] show
    that no division of the program is of that kind). *)
Definition c_div (a b : cell) : cell :=
  match a, b with
  | Some x, Some y => if Qeq_bool y 0 then None else Some (x / y)
  | _, _ => None
  end.

(** Comparisons are [False] as soon as an operand is NaN. *)
Definition c_lt (a b : cell) : bool :=
  match a, b with
  | Some x, Some y => Qlt_bool x y
  | _, _ => false
  end.

Definition c_gt (a b : cell) : bool := c_lt b a.

Definition c_eqz (a : cell) : bool :=
  match a with
  | Some x => Qeq_bool x 0
  | None => false
  end.

Definition isna (a : cell) : bool :=
  match a with
  | Some _ => false
  | None => true
  end.

(** Equality of cells up to the equality of rationals. *)
Definition ceq (a b : cell) : Prop :=
  match a, b with
  | Some x, Some y => x == y
  | None, None => True
  | _, _ => False
  end.

(** ** Rows, series and frames *)

Definition Series := list cell.

Record Frame (A : Type) : Type := mkFrame {
  columns : nat;
  rows : list (list A)
}.

Arguments mkFrame {A} _ _.
Arguments columns {A} _.
Arguments rows {A} _.

Definition DataFrame := Frame cell.

(** The frame is rectangular: pandas frames are so by construction. *)
Definition wf {A} (X : Frame A) : Prop :=
  Forall (fun r => length r = columns X) (rows X).


Fixpoint zip_with {A B C} (f : A -> B -> C) (l : list A) (m : list B) : list C :=
  match l, m with
  | a :: l', b :: m' => f a b :: zip_with f l' m'
  | _, _ => []
  end.

Definition frame_map {A B} (f : A -> B) (X : Frame A) : Frame B :=
  mkFrame (columns X) (map (map f) (rows X)).

Definition frame_map2 {A B C} (f : A -> B -> C) (X : Frame A) (Y : Frame B) : Frame C :=
  mkFrame (columns X) (zip_with (zip_with f) (rows X) (rows Y)).

(** [X.iloc[t, i]], when the position exists. *)
Definition iloc {A} (X : Frame A) (t i : nat) : option A :=
  match nth_error (rows X) t with
  | Some r => nth_error r i
  | None => None
  end.

(** *** Reductions along [axis=1] *)

(** Sum of the values that are not NaN. *)
Fixpoint nansum (r : list cell) : Q :=
  match r with
  | [] => 0
  | Some q :: r' => q + nansum r'
  | None :: r' => nansum r'
  end.

(** Number of values that are not NaN. *)
Fixpoint count (r : list cell) : nat :=
  match r with
  | [] => O
  | Some _ :: r' => S (count r')
  | None :: r' => count r'
  end.

(** [.sum(axis=1)]: skipna, [min_count=0]. *)
Definition row_sum (r : list cell) : cell := Some (nansum r).

(** [.sum(axis=1, min_count=1)]: NaN when no value is defined. *)
Definition row_sum_min1 (r : list cell) : cell :=
  match count r with
  | O => None
  | S _ => Some (nansum r)
  end.

(** [.mean(axis=1)]: skipna; NaN when no value is defined. *)
Definition row_mean (r : list cell) : cell :=
  match count r with
  | O => None
  | S _ => Some (nansum r / inject_Z (Z.of_nat (count r)))
  end.

Definition sum_axis1 (X : DataFrame) : Series := map row_sum (rows X).
Definition sum_axis1_min1 (X : DataFrame) : Series := map row_sum_min1 (rows X).
Definition mean_axis1 (X : DataFrame) : Series := map row_mean (rows X).

(** *** Frame operations used by the source *)

(** [forecasts.astype(float)]: the values are floats already. *)
Definition astype_float (X : DataFrame) : DataFrame := X.

(** [pd.DataFrame(index=X.index, columns=X.columns, dtype=float)]: all NaN. *)
Definition empty_like (X : DataFrame) : DataFrame :=
  mkFrame (columns X) (map (fun _ => repeat nan (columns X)) (rows X)).

Definition drop_at {A} (j : nat) (r : list A) : list A :=
  firstn j r ++ skipn (S j) r.

(** [X.drop(columns=col)]. *)
Definition drop (X : DataFrame) (col : nat) : DataFrame :=
  mkFrame (pred (columns X)) (map (drop_at col) (rows X)).

Fixpoint set_at {A} (j : nat) (v : A) (r : list A) : list A :=
  match r, j with
  | [], _ => []
  | _ :: r', O => v :: r'
  | a :: r', S j' => a :: set_at j' v r'
  end.

(** [M[col] = s] for an existing column [col]. *)
Definition set_column (M : DataFrame) (col : nat) (s : Series) : DataFrame :=
  mkFrame (columns M) (zip_with (fun r v => set_at col v r) (rows M) s).

(** [X.shift(1)]: the rows move down by one, the first row is NaN. *)
Definition shift1 (X : DataFrame) : DataFrame :=
  mkFrame (columns X)
    (match rows X with
     | [] => []
     | _ :: _ => repeat nan (columns X) :: removelast (rows X)
     end).

Definition df_sub : DataFrame -> DataFrame -> DataFrame := frame_map2 c_sub.
Definition df_add : DataFrame -> DataFrame -> DataFrame := frame_map2 c_add.
Definition df_mul : DataFrame -> DataFrame -> DataFrame := frame_map2 c_mul.
Definition df_div : DataFrame -> DataFrame -> DataFrame := frame_map2 c_div.
Definition df_abs : DataFrame -> DataFrame := frame_map c_abs.
Definition df_lt : DataFrame -> DataFrame -> Frame bool := frame_map2 c_lt.
Definition df_gt : DataFrame -> DataFrame -> Frame bool := frame_map2 c_gt.
Definition df_gt0 : DataFrame -> Frame bool := frame_map (fun c => c_gt c (Some 0)).
Definition df_and : Frame bool -> Frame bool -> Frame bool := frame_map2 andb.

(** [X.diff()]: first differences along the periods, [X - X.shift(1)]. *)
Definition diff (X : DataFrame) : DataFrame := df_sub X (shift1 X).

(** [P.where(mask, 0.0)]: keep [P] where the mask holds, [0.0] elsewhere. *)
Definition where_else0 (P : DataFrame) (mask : Frame bool) : DataFrame :=
  frame_map2 (fun p (m : bool) => if m then p else Some 0) P mask.

(** [s.replace(0.0, np.nan)]. *)
Definition replace_zero_nan (s : Series) : Series :=
  map (fun c => if c_eqz c then nan else c) s.

(** [R.div(s, axis=0)]: row [t] of [R] is divided by [s[t]]. *)
Definition div_axis0 (R : DataFrame) (s : Series) : DataFrame :=
  mkFrame (columns R) (zip_with (fun r d => map (fun c => c_div c d) r) (rows R) s).

(** ** The weight engine *)

(** Step 0 of the source: for each column, the mean of the other columns. *)
Definition m_minus_of (X : DataFrame) : DataFrame :=
  fold_left
    (fun m_minus col => set_column m_minus col (mean_axis1 (drop X col)))
    (seq 0 (columns X))
    (empty_like X).

Definition compute_pioneer_weights_simple (forecasts : DataFrame) : DataFrame :=
  let X := astype_float forecasts in
  let m_minus := m_minus_of X in
  let delta_X := diff X in
  let delta_m := diff m_minus in
  let distance := df_abs (df_sub X m_minus) in
  let distance_prev := shift1 distance in
  let cond_distance := df_lt distance distance_prev in
  let cond_orientation := df_gt (df_abs delta_m) (df_abs delta_X) in
  let denom := df_add (df_abs delta_m) (df_abs delta_X) in
  let proportion := df_div (df_abs delta_m) denom in
  let mask := df_and (df_and cond_distance cond_orientation) (df_gt0 denom) in
  let raw := where_else0 proportion mask in
  let row_sums := sum_axis1 raw in
  let weights := div_axis0 raw (replace_zero_nan row_sums) in
  weights.

(** ** The pooler *)

(** A selection of a series keeps the labels (positions) of its entries. *)
Definition Selection := list (nat * cell).

Fixpoint select_from (t : nat) (s : Series) (key : list bool) : Selection :=
  match s, key with
  | c :: s', k :: key' =>
      (if k then [(t, c)] else []) ++ select_from (S t) s' key'
  | _, _ => []
  end.

(** [s[key]] for a boolean series [key]: the entries where [key] holds. *)
Definition getitem_mask (s : Series) (key : list bool) : Selection :=
  select_from O s key.

Fixpoint lookup_label (t : nat) (v : Selection) : option cell :=
  match v with
  | [] => None
  | (k, c) :: v' => if Nat.eqb k t then Some c else lookup_label t v'
  end.

Fixpoint setitem_from (t : nat) (p : Series) (key : list bool) (v : Selection) : Series :=
  match p, key with
  | c :: p', k :: key' =>
      (if k then match lookup_label t v with Some x => x | None => nan end else c)
        :: setitem_from (S t) p' key' v
  | _, _ => []
  end.

(** [p[key] = v]: where [key] holds, the entry of [v] with the same label
    (NaN when [v] has none); elsewhere [p] is kept. *)
Definition setitem_mask (p : Series) (key : list bool) (v : Selection) : Series :=
  setitem_from O p key v.

Definition pooled_forecast_simple (forecasts weights : DataFrame) : Series :=
  let forecasts := astype_float forecasts in
  let weights := astype_float weights in
  let weighted_sum := sum_axis1_min1 (df_mul forecasts weights) in
  let weight_sums := sum_axis1_min1 weights in
  let no_pioneer := map (fun c => isna c || c_eqz c) weight_sums in
  let fallback_mean := mean_axis1 forecasts in
  let pooled := weighted_sum in
  setitem_mask pooled no_pioneer (getitem_mask fallback_mean no_pioneer).

(** ** The scenario of the specification *)

Definition q (n : Z) : cell := Some (inject_Z n).

Definition scenario : DataFrame :=
  mkFrame 3
    [ [q 10; q 10; q 10];
      [q 11; q 10; q 9];
      [q 13; q 10; q 9];
      [q 13; q 14; q 15] ].


(** ** Definitions used to state and prove the properties *)

Local Open Scope nat_scope.

(** [shape X T N]: [X] has [T] rows of [N] cells each. *)
Definition shape {A} (X : Frame A) (T N : nat) : Prop :=
  columns X = N /\ length (rows X) = T /\ Forall (fun r => length r = N) (rows X).

(** Leave-one-out mean of position [i] in a row. *)
Definition loo_mean (r : list cell) (i : nat) : cell := row_mean (drop_at i r).

Definition loo_row (r : list cell) : list cell :=
  map (loo_mean r) (seq 0 (length r)).

(** The raw weight of one expert at one period, from its own value and its
    leave-one-out mean at the period ([xt], [mt]) and at the period before
    ([xp], [mp]): lines 79 to 96 of the source at one position. *)
Definition raw_cell (xp mp xt mt : cell) : cell :=
  let delta_X := c_sub xt xp in
  let delta_m := c_sub mt mp in
  let distance := c_abs (c_sub xt mt) in
  let distance_prev := c_abs (c_sub xp mp) in
  let cond_distance := c_lt distance distance_prev in
  let cond_orientation := c_gt (c_abs delta_m) (c_abs delta_X) in
  let denom := c_add (c_abs delta_m) (c_abs delta_X) in
  let proportion := c_div (c_abs delta_m) denom in
  let mask := cond_distance && cond_orientation && c_gt denom (Some 0%Q) in
  if mask then proportion else Some 0%Q.

(** The frame [raw] of the source. *)
Definition raw_of (forecasts : DataFrame) : DataFrame :=
  let X := astype_float forecasts in
  let m_minus := m_minus_of X in
  let delta_X := diff X in
  let delta_m := diff m_minus in
  let distance := df_abs (df_sub X m_minus) in
  let distance_prev := shift1 distance in
  let cond_distance := df_lt distance distance_prev in
  let cond_orientation := df_gt (df_abs delta_m) (df_abs delta_X) in
  let denom := df_add (df_abs delta_m) (df_abs delta_X) in
  let proportion := df_div (df_abs delta_m) denom in
  let mask := df_and (df_and cond_distance cond_orientation) (df_gt0 denom) in
  where_else0 proportion mask.

(** Normalisation of one row of [raw]. *)
Definition normalise (r : list cell) : list cell :=
  map (fun c => c_div c (if c_eqz (row_sum r) then nan else row_sum r)) r.

(** The three conditions of the method on finite values. *)
Record pioneer_conditions (xp mp xt mt : Q) : Prop := {
  distance_condition : (Qabs (xt - mt) < Qabs (xp - mp))%Q;
  orientation_condition : (Qabs (xt - xp) < Qabs (mt - mp))%Q;
  denominator_positive : (0 < Qabs (mt - mp) + Qabs (xt - xp))%Q
}.

Definition proportion_of (xp mp xt mt : Q) : Q :=
  (Qabs (mt - mp) / (Qabs (mt - mp) + Qabs (xt - xp)))%Q.

Fixpoint Qsum (l : list Q) : Q :=
  match l with
  | [] => 0%Q
  | x :: l' => (x + Qsum l')%Q
  end.

(** A row that is entirely NaN. *)
Definition undefined_row (r : list cell) : Prop := Forall (fun c => c = nan) r.

(** A row of finite weights in [[0,1]] that sum to 1, one of them positive. *)
Definition unit_row (r : list cell) : Prop :=
  exists ws,
    r = map Some ws /\
    Forall (fun w => 0 <= w /\ w <= 1)%Q ws /\
    (Qsum ws == 1)%Q /\
    Exists (fun w => 0 < w)%Q ws.






(** The effect of [p[key] = src[key]], position by position. *)
Fixpoint assign_where (pooled : Series) (key : list bool) (src : Series) : Series :=
  match pooled, key, src with
  | p :: pooled', b :: key', s :: src' =>
      (if b then s else p) :: assign_where pooled' key' src'
  | _, _, _ => []
  end.

(** The pooled value of one period, from its row of forecasts and weights. *)
Definition pooled_row (fr wr : list cell) : cell :=
  if isna (row_sum_min1 wr) || c_eqz (row_sum_min1 wr)
  then row_mean fr
  else row_sum_min1 (zip_with c_mul fr wr).






(** ** The source over an object store

    pandas objects live in a store and are passed by reference.  Every pandas
    operation of the source reads its operands and returns a new object; the
    two item assignments of the source update an object in place.  A step
    that Python would refuse (a reference to no object, or to an object of
    another kind) raises. *)

Module Heap.

Inductive obj : Type :=
| OFrame (X : DataFrame)
| OMask (B : Frame bool)
| OSeries (s : Series)
| OBools (b : list bool)
| OSelection (v : Selection).

Definition loc := nat.
Definition store := list obj.

(** A computation on the store; [None] is a raised exception. *)
Definition M (A : Type) : Type := store -> option (A * store).

Definition ret {A} (a : A) : M A := fun h => Some (a, h).

Definition bind {A B} (c : M A) (k : A -> M B) : M B :=
  fun h => match c h with
           | Some (a, h') => k a h'
           | None => None
           end.

Definition raise {A} : M A := fun _ => None.

Declare Scope heap_scope.
Delimit Scope heap_scope with heap.
Notation "x <- c ;; k" := (bind c (fun x => k))
  (at level 61, c at next level, right associativity) : heap_scope.
Notation "c ;; k" := (bind c (fun _ => k))
  (at level 61, right associativity) : heap_scope.
Local Open Scope heap_scope.

Definition alloc (o : obj) : M loc := fun h => Some (length h, h ++ [o]).

Definition read (l : loc) : M obj :=
  fun h => match nth_error h l with
           | Some o => Some (o, h)
           | None => None
           end.

Definition write (l : loc) (o : obj) : M unit :=
  fun h => if l <? length h then Some (tt, set_at l o h) else None.

Definition read_frame (l : loc) : M DataFrame :=
  o <- read l ;; match o with OFrame X => ret X | _ => raise end.

Definition read_mask (l : loc) : M (Frame bool) :=
  o <- read l ;; match o with OMask B => ret B | _ => raise end.

Definition read_series (l : loc) : M Series :=
  o <- read l ;; match o with OSeries s => ret s | _ => raise end.

Definition read_bools (l : loc) : M (list bool) :=
  o <- read l ;; match o with OBools b => ret b | _ => raise end.

Definition read_selection (l : loc) : M Selection :=
  o <- read l ;; match o with OSelection v => ret v | _ => raise end.

(** *** pandas operations: the operands are read, the result is new *)

Definition frame_op1 (f : DataFrame -> DataFrame) (x : loc) : M loc :=
  X <- read_frame x ;; alloc (OFrame (f X)).

Definition frame_op2 (f : DataFrame -> DataFrame -> DataFrame) (x y : loc) : M loc :=
  X <- read_frame x ;; Y <- read_frame y ;; alloc (OFrame (f X Y)).

Definition frame_cmp (f : DataFrame -> DataFrame -> Frame bool) (x y : loc) : M loc :=
  X <- read_frame x ;; Y <- read_frame y ;; alloc (OMask (f X Y)).

Definition frame_test (f : DataFrame -> Frame bool) (x : loc) : M loc :=
  X <- read_frame x ;; alloc (OMask (f X)).

Definition mask_and (a b : loc) : M loc :=
  A <- read_mask a ;; B <- read_mask b ;; alloc (OMask (df_and A B)).

Definition frame_where (p m : loc) : M loc :=
  P <- read_frame p ;; B <- read_mask m ;; alloc (OFrame (where_else0 P B)).

Definition frame_reduce (f : DataFrame -> Series) (x : loc) : M loc :=
  X <- read_frame x ;; alloc (OSeries (f X)).

Definition series_op1 (f : Series -> Series) (s : loc) : M loc :=
  S <- read_series s ;; alloc (OSeries (f S)).

Definition series_test (f : cell -> bool) (s : loc) : M loc :=
  S <- read_series s ;; alloc (OBools (map f S)).

Definition bools_or (a b : loc) : M loc :=
  A <- read_bools a ;; B <- read_bools b ;; alloc (OBools (zip_with orb A B)).

Definition frame_div_axis0 (r s : loc) : M loc :=
  R <- read_frame r ;; S <- read_series s ;; alloc (OFrame (div_axis0 R S)).

(** [s[key]]. *)
Definition series_getitem_mask (s key : loc) : M loc :=
  S <- read_series s ;; K <- read_bools key ;; alloc (OSelection (getitem_mask S K)).

(** [X.columns]. *)
Definition columns_of (x : loc) : M nat :=
  X <- read_frame x ;; ret (columns X).

(** *** The two in-place updates *)

(** [m[col] = s]: the frame at [m] is updated. *)
Definition setitem_column (m : loc) (col : nat) (s : loc) : M unit :=
  Mf <- read_frame m ;; S <- read_series s ;; write m (OFrame (set_column Mf col S)).

(** [p[key] = v]: the series at [p] is updated. *)
Definition series_setitem_mask (p key v : loc) : M unit :=
  P <- read_series p ;; K <- read_bools key ;; V <- read_selection v ;;
  write p (OSeries (setitem_mask P K V)).

Fixpoint for_each (l : list nat) (body : nat -> M unit) : M unit :=
  match l with
  | [] => ret tt
  | a :: l' => body a ;; for_each l' body
  end.

(** *** The two functions of the source *)

Definition compute_pioneer_weights_simple (forecasts : loc) : M loc :=
  X <- frame_op1 astype_float forecasts ;;
  m_minus <- frame_op1 empty_like X ;;
  cols <- columns_of X ;;
  for_each (seq 0 cols)
    (fun col =>
       others <- frame_op1 (fun X => drop X col) X ;;
       mean_others <- frame_reduce mean_axis1 others ;;
       setitem_column m_minus col mean_others) ;;
  delta_X <- frame_op1 diff X ;;
  delta_m <- frame_op1 diff m_minus ;;
  X_minus_m <- frame_op2 df_sub X m_minus ;;
  distance <- frame_op1 df_abs X_minus_m ;;
  distance_prev <- frame_op1 shift1 distance ;;
  cond_distance <- frame_cmp df_lt distance distance_prev ;;
  abs_m1 <- frame_op1 df_abs delta_m ;;
  abs_X1 <- frame_op1 df_abs delta_X ;;
  cond_orientation <- frame_cmp df_gt abs_m1 abs_X1 ;;
  abs_m2 <- frame_op1 df_abs delta_m ;;
  abs_X2 <- frame_op1 df_abs delta_X ;;
  denom <- frame_op2 df_add abs_m2 abs_X2 ;;
  abs_m3 <- frame_op1 df_abs delta_m ;;
  proportion <- frame_op2 df_div abs_m3 denom ;;
  both <- mask_and cond_distance cond_orientation ;;
  denom_pos <- frame_test df_gt0 denom ;;
  mask <- mask_and both denom_pos ;;
  raw <- frame_where proportion mask ;;
  row_sums <- frame_reduce sum_axis1 raw ;;
  divisor <- series_op1 replace_zero_nan row_sums ;;
  weights <- frame_div_axis0 raw divisor ;;
  ret weights.

Definition pooled_forecast_simple (forecasts weights : loc) : M loc :=
  forecasts' <- frame_op1 astype_float forecasts ;;
  weights' <- frame_op1 astype_float weights ;;
  products <- frame_op2 df_mul forecasts' weights' ;;
  weighted_sum <- frame_reduce sum_axis1_min1 products ;;
  weight_sums <- frame_reduce sum_axis1_min1 weights' ;;
  sums_na <- series_test isna weight_sums ;;
  sums_zero <- series_test c_eqz weight_sums ;;
  no_pioneer <- bools_or sums_na sums_zero ;;
  fallback_mean <- frame_reduce mean_axis1 forecasts' ;;
  pooled <- series_op1 (fun s => s) weighted_sum ;;
  selected <- series_getitem_mask fallback_mean no_pioneer ;;
  series_setitem_mask pooled no_pioneer selected ;;
  ret pooled.

(** The objects of [h] are in [h'] as they were. *)
Definition preserved (h h' : store) : Prop :=
  forall l, l < length h -> nth_error h' l = nth_error h l.

(** [c] runs on [h] without raising, returns [a] and leaves [h']. *)
Definition returns {A} (c : M A) (h : store) (a : A) (h' : store) : Prop :=
  c h = Some (a, h').

End Heap.

(** ** One period at a time

    The vectorised source amounts to a loop over the periods and, within a
    period, over the experts.  The functions below are that loop body: they
    take the rows of forecasts of the previous and of the current period. *)




(** Three periods without any expert. *)
Definition no_expert : DataFrame := mkFrame 0 [ []; []; [] ].

(** ** The weight engine in binary64

    The cells of the frames above are exact rationals.  pandas computes in
    binary64: the differences, the means and the proportions are rounded, and
    a comparison of the source is a comparison of rounded values.  The module
    below embeds [compute_pioneer_weights_simple] a second time, line by line
    as above, over the kernel's binary64 floats, where NaN, the infinities,
    the signed zeros, rounding and overflow are those of IEEE 754.

    - An entry of the forecasts is an [int64] or a [float64];
      [astype(float)] rounds an integer to the nearest double.
    - [sum] and [mean] along [axis=1] fill NaN with [0.0] and hand the row to
      numpy's [add.reduce].  The order in which numpy adds the terms of a row
      is not in the source: it is the parameter [add_reduce] of the
      definitions.  [sum_left] adds from left to right. *)

Module F64.
Import Floats.

Inductive scalar : Type :=
| SInt (z : Z)
| SFloat (f : float).

(** The nearest double of an [int64]. *)
Definition of_int64 (z : Z) : float :=
  if (0 <=? z)%Z then PrimFloat.of_uint63 (Uint63.of_Z z)
  else if (z =? - 2 ^ 63)%Z then PrimFloat.opp 0x1p63%float
  else PrimFloat.opp (PrimFloat.of_uint63 (Uint63.of_Z (- z))).

Definition to_float (s : scalar) : float :=
  match s with
  | SInt z => of_int64 z
  | SFloat f => f
  end.

(** [forecasts.astype(float)]. *)
Definition astype_float (X : Frame scalar) : Frame float := frame_map to_float X.

Definition nan : float := PrimFloat.nan.

(** [pd.DataFrame(index=X.index, columns=X.columns, dtype=float)]: all NaN. *)
Definition empty_like (X : Frame float) : Frame float :=
  mkFrame (columns X) (map (fun _ => repeat nan (columns X)) (rows X)).

(** [X.drop(columns=col)]. *)
Definition drop (X : Frame float) (col : nat) : Frame float :=
  mkFrame (pred (columns X)) (map (drop_at col) (rows X)).

(** [M[col] = s] for an existing column [col]. *)
Definition set_column (M : Frame float) (col : nat) (s : list float) : Frame float :=
  mkFrame (columns M) (zip_with (fun r v => set_at col v r) (rows M) s).

(** [X.shift(1)]. *)
Definition shift1 (X : Frame float) : Frame float :=
  mkFrame (columns X)
    (match rows X with
     | [] => []
     | _ :: _ => repeat nan (columns X) :: removelast (rows X)
     end).

Definition df_sub : Frame float -> Frame float -> Frame float := frame_map2 PrimFloat.sub.
Definition df_add : Frame float -> Frame float -> Frame float := frame_map2 PrimFloat.add.
Definition df_div : Frame float -> Frame float -> Frame float := frame_map2 PrimFloat.div.
Definition df_abs : Frame float -> Frame float := frame_map PrimFloat.abs.
Definition df_lt : Frame float -> Frame float -> Frame bool := frame_map2 PrimFloat.ltb.
Definition df_gt : Frame float -> Frame float -> Frame bool :=
  frame_map2 (fun a b => PrimFloat.ltb b a).
Definition df_gt0 : Frame float -> Frame bool :=
  frame_map (fun c => PrimFloat.ltb 0%float c).

(** [X.diff()]. *)
Definition diff (X : Frame float) : Frame float := df_sub X (shift1 X).

(** [P.where(mask, 0.0)]. *)
Definition where_else0 (P : Frame float) (mask : Frame bool) : Frame float :=
  frame_map2 (fun p (m : bool) => if m then p else 0%float) P mask.

(** [s.replace(0.0, np.nan)]: [-0.0] equals [0.0] and is replaced too. *)
Definition replace_zero_nan (s : list float) : list float :=
  map (fun c => if PrimFloat.eqb c 0%float then nan else c) s.

(** [R.div(s, axis=0)]. *)
Definition div_axis0 (R : Frame float) (s : list float) : Frame float :=
  mkFrame (columns R) (zip_with (fun r d => map (fun c => PrimFloat.div c d) r) (rows R) s).

Definition fill0 (c : float) : float := if PrimFloat.is_nan c then 0%float else c.

(** Number of values that are not NaN. *)
Definition count (r : list float) : nat :=
  length (filter (fun c => negb (PrimFloat.is_nan c)) r).

Definition float_of_nat (n : nat) : float :=
  PrimFloat.of_uint63 (Uint63.of_Z (Z.of_nat n)).

(** Numpy adding from left to right. *)
Definition sum_left (r : list float) : float :=
  match r with
  | [] => 0%float
  | x :: r' => fold_left PrimFloat.add r' x
  end.

Section Reduction.

Variable add_reduce : list float -> float.

(** [.sum(axis=1)]: skipna, [min_count=0]. *)
Definition row_sum (r : list float) : float := add_reduce (map fill0 r).

(** [.mean(axis=1)]: the sum of the defined values over their number; NaN
    when no value is defined. *)
Definition row_mean (r : list float) : float :=
  match count r with
  | O => nan
  | S _ => PrimFloat.div (add_reduce (map fill0 r)) (float_of_nat (count r))
  end.

Definition sum_axis1 (X : Frame float) : list float := map row_sum (rows X).
Definition mean_axis1 (X : Frame float) : list float := map row_mean (rows X).

(** Step 0 of the source. *)
Definition m_minus_of (X : Frame float) : Frame float :=
  fold_left
    (fun m_minus col => set_column m_minus col (mean_axis1 (drop X col)))
    (seq 0 (columns X))
    (empty_like X).

Definition compute_pioneer_weights_simple (forecasts : Frame scalar) : Frame float :=
  let X := astype_float forecasts in
  let m_minus := m_minus_of X in
  let delta_X := diff X in
  let delta_m := diff m_minus in
  let distance := df_abs (df_sub X m_minus) in
  let distance_prev := shift1 distance in
  let cond_distance := df_lt distance distance_prev in
  let cond_orientation := df_gt (df_abs delta_m) (df_abs delta_X) in
  let denom := df_add (df_abs delta_m) (df_abs delta_X) in
  let proportion := df_div (df_abs delta_m) denom in
  let mask := df_and (df_and cond_distance cond_orientation) (df_gt0 denom) in
  let raw := where_else0 proportion mask in
  let row_sums := sum_axis1 raw in
  let weights := div_axis0 raw (replace_zero_nan row_sums) in
  weights.

(** The frame [raw] of the source. *)
Definition raw_of (forecasts : Frame scalar) : Frame float :=
  let X := astype_float forecasts in
  let m_minus := m_minus_of X in
  let delta_X := diff X in
  let delta_m := diff m_minus in
  let distance := df_abs (df_sub X m_minus) in
  let distance_prev := shift1 distance in
  let cond_distance := df_lt distance distance_prev in
  let cond_orientation := df_gt (df_abs delta_m) (df_abs delta_X) in
  let denom := df_add (df_abs delta_m) (df_abs delta_X) in
  let proportion := df_div (df_abs delta_m) denom in
  let mask := df_and (df_and cond_distance cond_orientation) (df_gt0 denom) in
  where_else0 proportion mask.

(** Leave-one-out means of a row. *)
Definition loo_row (r : list float) : list float :=
  map (fun i => row_mean (drop_at i r)) (seq 0 (length r)).

(** Normalisation of one row of [raw]. *)
Definition normalise (r : list float) : list float :=
  map (fun c => PrimFloat.div c
                  (if PrimFloat.eqb (row_sum r) 0%float then nan else row_sum r)) r.

End Reduction.

(** The raw weight of one position: lines 79 to 96 of the source. *)
Definition raw_cell (xp mp xt mt : float) : float :=
  let delta_X := PrimFloat.sub xt xp in
  let delta_m := PrimFloat.sub mt mp in
  let distance := PrimFloat.abs (PrimFloat.sub xt mt) in
  let distance_prev := PrimFloat.abs (PrimFloat.sub xp mp) in
  let cond_distance := PrimFloat.ltb distance distance_prev in
  let cond_orientation := PrimFloat.ltb (PrimFloat.abs delta_X) (PrimFloat.abs delta_m) in
  let denom := PrimFloat.add (PrimFloat.abs delta_m) (PrimFloat.abs delta_X) in
  let proportion := PrimFloat.div (PrimFloat.abs delta_m) denom in
  let mask := cond_distance && cond_orientation && PrimFloat.ltb 0%float denom in
  if mask then proportion else 0%float.

(** The value of a finite double as a rational. *)
Definition to_Q (f : float) : option Q :=
  match FloatOps.Prim2SF f with
  | SpecFloat.S754_zero _ => Some 0%Q
  | SpecFloat.S754_finite s m e =>
      let v := (inject_Z (Z.pos m) * Qpower (inject_Z 2) e)%Q in
      Some (if s then Qopp v else v)
  | _ => None
  end.


(** Two periods of four integer forecasts with a tie of the distances of
    the last expert. *)
Definition tie_forecasts : Frame scalar :=
  mkFrame 4 [ [SInt 0; SInt 0; SInt 2; SInt 1]; [SInt 2; SInt 0; SInt 2; SInt 1] ].

End F64.

(** The same forecasts with exact cells. *)
Definition tie_forecasts_exact : DataFrame :=
  mkFrame 4 [ [q 0; q 0; q 2; q 1]; [q 2; q 0; q 2; q 1] ].


(** ** Facts about scalars *)

Lemma Qlt_bool_iff (x y : Q) : Qlt_bool x y = true <-> (x < y)%Q.
Proof.
  unfold Qlt_bool. rewrite negb_true_iff. split; intros H.
  - apply Qnot_le_lt. intros Hle. apply Qle_bool_iff in Hle. congruence.
  - destruct (Qle_bool y x) eqn:E; [|reflexivity].
    apply Qle_bool_iff in E. exfalso. exact (Qlt_not_le _ _ H E).
Qed.

Lemma c_lt_true (a b : cell) :
  c_lt a b = true <-> exists x y, a = Some x /\ b = Some y /\ (x < y)%Q.
Proof.
  split.
  - destruct a as [x|], b as [y|]; simpl; try discriminate.
    intros H. exists x, y. rewrite Qlt_bool_iff in H. auto.
  - intros (x & y & -> & -> & H). simpl. now apply Qlt_bool_iff.
Qed.

Lemma c_eqz_true (a : cell) : c_eqz a = true <-> exists x, a = Some x /\ (x == 0)%Q.
Proof.
  destruct a as [x|]; simpl.
  - rewrite Qeq_bool_iff. split; [eauto | intros (y & [= ->] & H); exact H].
  - split; [discriminate | intros (y & [=] & _)].
Qed.

Lemma ceq_refl (a : cell) : ceq a a.
Proof. destruct a; simpl; [reflexivity | exact I]. Qed.

Lemma ceq_sym (a b : cell) : ceq a b -> ceq b a.
Proof. destruct a, b; simpl; auto. intros H. symmetry. exact H. Qed.

Lemma ceq_trans (a b c : cell) : ceq a b -> ceq b c -> ceq a c.
Proof.
  destruct a, b, c; simpl; auto; try contradiction.
  intros H1 H2. now rewrite H1.
Qed.

(** ** Facts about lists and frames *)

Section Lists.
Context {A B C : Type}.

Lemma zip_with_length (f : A -> B -> C) l m :
  length (zip_with f l m) = Nat.min (length l) (length m).
Proof.
  revert m. induction l as [|a l IH]; intros [|b m]; simpl; auto.
Qed.

Lemma nth_error_zip_with (f : A -> B -> C) l m n :
  nth_error (zip_with f l m) n =
  match nth_error l n, nth_error m n with
  | Some a, Some b => Some (f a b)
  | _, _ => None
  end.
Proof.
  revert m n. induction l as [|a l IH]; intros [|b m] [|n]; simpl; auto.
  destruct (nth_error l n); reflexivity.
Qed.

Lemma zip_with_map_r (f : A -> B -> C) (g : A -> B) l :
  zip_with f l (map g l) = map (fun a => f a (g a)) l.
Proof. induction l as [|a l IH]; simpl; congruence. Qed.

Lemma zip_with_repeat (f : A -> B -> C) a b n :
  zip_with f (repeat a n) (repeat b n) = repeat (f a b) n.
Proof. induction n as [|n IH]; simpl; congruence. Qed.

Lemma removelast_zip_with (f : A -> B -> C) l m :
  length l = length m ->
  removelast (zip_with f l m) = zip_with f (removelast l) (removelast m).
Proof.
  revert m. induction l as [|a l IH]; intros [|b m] H; simpl in *; try discriminate; auto.
  injection H as H. destruct l as [|a' l], m as [|b' m]; simpl in *; try discriminate; auto.
  f_equal. apply (IH (b' :: m)). simpl. congruence.
Qed.
End Lists.

Lemma removelast_map {A B} (f : A -> B) l :
  removelast (map f l) = map f (removelast l).
Proof.
  induction l as [|a l IH]; simpl; auto.
  destruct l as [|a' l]; simpl in *; auto. now rewrite IH.
Qed.

Lemma nth_error_removelast {A} (l : list A) n :
  S n < length l -> nth_error (removelast l) n = nth_error l n.
Proof.
  revert n. induction l as [|a l IH]; intros n H; simpl in *; [lia|].
  destruct l as [|a' l]; simpl in *; [lia|].
  destruct n as [|n]; simpl; auto. apply IH. lia.
Qed.

Lemma removelast_length {A} (l : list A) : length (removelast l) = pred (length l).
Proof.
  induction l as [|a l IH]; simpl; auto.
  destruct l as [|a' l]; simpl in *; auto.
Qed.

Lemma nth_error_repeat_lt {A} (a : A) n i : i < n -> nth_error (repeat a n) i = Some a.
Proof.
  revert i. induction n as [|n IH]; intros [|i] H; simpl; try lia; auto.
  apply IH. lia.
Qed.

Lemma set_at_length {A} j (v : A) r : length (set_at j v r) = length r.
Proof.
  revert j. induction r as [|a r IH]; intros [|j]; simpl; auto.
Qed.

Lemma set_at_app {A} (v : A) l a r :
  set_at (length l) v (l ++ a :: r) = l ++ v :: r.
Proof. induction l as [|b l IH]; simpl; congruence. Qed.

Lemma drop_at_length {A} j (r : list A) : j < length r -> length (drop_at j r) = pred (length r).
Proof.
  intros H. unfold drop_at. rewrite length_app, length_firstn, length_skipn. lia.
Qed.

(** *** Positions of the frames built by the operations *)

Lemma iloc_map {A B} (f : A -> B) X t i :
  iloc (frame_map f X) t i = option_map f (iloc X t i).
Proof.
  unfold iloc, frame_map; simpl. rewrite nth_error_map.
  destruct (nth_error (rows X) t) as [r|]; simpl; [|reflexivity].
  apply nth_error_map.
Qed.

Lemma iloc_map2 {A B C} (f : A -> B -> C) X Y t i :
  iloc (frame_map2 f X Y) t i =
  match iloc X t i, iloc Y t i with
  | Some a, Some b => Some (f a b)
  | _, _ => None
  end.
Proof.
  unfold iloc, frame_map2; simpl. rewrite nth_error_zip_with.
  destruct (nth_error (rows X) t) as [r|], (nth_error (rows Y) t) as [s|]; simpl; auto.
  - apply nth_error_zip_with.
  - destruct (nth_error r i); reflexivity.
Qed.

Lemma iloc_in_range {A} (X : Frame A) t i :
  wf X -> t < length (rows X) -> i < columns X -> exists a, iloc X t i = Some a.
Proof.
  intros Hwf Ht Hi. unfold iloc.
  destruct (nth_error (rows X) t) as [r|] eqn:E.
  - assert (length r = columns X) as Hr.
    { unfold wf in Hwf. rewrite Forall_forall in Hwf. apply Hwf.
      eapply nth_error_In; eauto. }
    destruct (nth_error r i) eqn:E'; eauto.
    apply nth_error_None in E'. lia.
  - apply nth_error_None in E. lia.
Qed.


Lemma iloc_shift1_0 X i :
  iloc (shift1 X) 0 i =
  match rows X with
  | [] => None
  | _ :: _ => if i <? columns X then Some nan else None
  end.
Proof.
  unfold iloc, shift1; simpl. destruct (rows X) as [|r rs]; simpl; auto.
  destruct (Nat.ltb_spec i (columns X)) as [H|H].
  - now apply nth_error_repeat_lt.
  - apply nth_error_None. rewrite repeat_length. lia.
Qed.

Lemma iloc_shift1_S X t i :
  iloc (shift1 X) (S t) i = if S t <? length (rows X) then iloc X t i else None.
Proof.
  unfold iloc, shift1; simpl. destruct (rows X) as [|r rs] eqn:E; simpl; auto.
  change (match rs with [] => [] | _ :: _ => r :: removelast rs end) with (removelast (r :: rs)).
  destruct (Nat.ltb_spec (S t) (S (length rs))) as [H|H].
  - rewrite nth_error_removelast; simpl; auto.
  - replace (nth_error (removelast (r :: rs)) t) with (@None (list cell)); auto.
    symmetry. apply nth_error_None. rewrite removelast_length. simpl. lia.
Qed.

(** *** Shapes *)

Lemma shape_wf {A} (X : Frame A) : wf X -> shape X (length (rows X)) (columns X).
Proof. intros H. repeat split. exact H. Qed.

Lemma shape_is_wf {A} (X : Frame A) T N : shape X T N -> wf X.
Proof. intros (Hc & _ & H). unfold wf. now rewrite Hc. Qed.

Lemma Forall_zip_with {A B C} (f : A -> B -> C) (P : C -> Prop) l m :
  (forall a b, In a l -> In b m -> P (f a b)) -> Forall P (zip_with f l m).
Proof.
  revert m. induction l as [|a l IH]; intros [|b m] H; simpl; constructor.
  - apply H; now left.
  - apply IH. intros a' b' Ha Hb. apply H; now right.
Qed.

Lemma shape_map {A B} (f : A -> B) X T N : shape X T N -> shape (frame_map f X) T N.
Proof.
  intros (Hc & Hr & Hf). repeat split; simpl; auto.
  - now rewrite length_map.
  - apply Forall_map. eapply Forall_impl; [|exact Hf].
    simpl. intros r Hl. now rewrite length_map.
Qed.

Lemma shape_map2 {A B C} (f : A -> B -> C) X Y T N :
  shape X T N -> shape Y T N -> shape (frame_map2 f X Y) T N.
Proof.
  intros (Hc & Hr & Hf) (Hc' & Hr' & Hf'). repeat split; simpl; auto.
  - rewrite zip_with_length. lia.
  - rewrite Forall_forall in Hf, Hf'. apply Forall_zip_with.
    intros r s Hin Hin'. rewrite zip_with_length, (Hf _ Hin), (Hf' _ Hin'). lia.
Qed.

Lemma Forall_removelast {A} (P : A -> Prop) l : Forall P l -> Forall P (removelast l).
Proof.
  induction 1 as [|a l Ha Hl IH]; simpl; auto.
  destruct l; auto.
Qed.

Lemma shape_shift1 X T N : shape X T N -> shape (shift1 X) T N.
Proof.
  intros (Hc & Hr & Hf). unfold shift1. repeat split; simpl; auto.
  - destruct (rows X) as [|r rs] eqn:E; simpl in *; auto.
    change (match rs with [] => [] | _ :: _ => r :: removelast rs end)
      with (removelast (r :: rs)).
    rewrite removelast_length. simpl. lia.
  - destruct (rows X) as [|r rs] eqn:E; auto.
    constructor.
    + rewrite repeat_length. exact Hc.
    + now apply Forall_removelast.
Qed.

Lemma shift1_map (f : cell -> cell) X :
  f nan = nan -> shift1 (frame_map f X) = frame_map f (shift1 X).
Proof.
  intros Hf. unfold shift1, frame_map; simpl. f_equal.
  destruct (rows X) as [|r rs] eqn:E; simpl; auto.
  rewrite map_repeat, Hf. f_equal.
  change (match map (map f) rs with
          | [] => []
          | _ :: _ => map f r :: removelast (map (map f) rs)
          end) with (removelast (map (map f) (r :: rs))).
  now rewrite removelast_map.
Qed.

Lemma shift1_map2 (f : cell -> cell -> cell) X Y T N :
  f nan nan = nan -> shape X T N -> shape Y T N ->
  shift1 (frame_map2 f X Y) = frame_map2 f (shift1 X) (shift1 Y).
Proof.
  intros Hf (Hc & Hr & _) (Hc' & Hr' & _). unfold shift1, frame_map2; simpl. f_equal.
  destruct (rows X) as [|r rs] eqn:E, (rows Y) as [|s ss] eqn:E';
    simpl in *; try lia; auto.
  rewrite Hc, Hc', zip_with_repeat, Hf. f_equal.
  change (match zip_with (zip_with f) rs ss with
          | [] => []
          | _ :: _ => zip_with f r s :: removelast (zip_with (zip_with f) rs ss)
          end) with (removelast (zip_with (zip_with f) (r :: rs) (s :: ss))).
  rewrite removelast_zip_with; [reflexivity | simpl; lia].
Qed.

(** *** The leave-one-out means, row by row *)

Lemma zip_with_map_map {A B C D} (f : B -> C -> D) (g : A -> B) (h : A -> C) l :
  zip_with f (map g l) (map h l) = map (fun a => f (g a) (h a)) l.
Proof. induction l as [|a l IH]; simpl; congruence. Qed.

Lemma m_minus_prefix (X : DataFrame) k :
  k <= columns X ->
  let M := fold_left
             (fun m_minus col => set_column m_minus col (mean_axis1 (drop X col)))
             (seq 0 k) (empty_like X) in
  columns M = columns X /\
  rows M = map (fun r => map (loo_mean r) (seq 0 k) ++ repeat nan (columns X - k))
               (rows X).
Proof.
  induction k as [|k IH]; intros Hk; cbv zeta.
  - simpl. split; [reflexivity|]. now rewrite Nat.sub_0_r.
  - destruct IH as [IHc IHr]; [lia|].
    rewrite seq_S, fold_left_app. simpl Nat.add.
    set (M0 := fold_left _ (seq 0 k) _) in *.
    cbn [fold_left]. unfold set_column. cbn [columns rows]. split; [exact IHc|].
    rewrite IHr. unfold mean_axis1, drop. cbn [rows].
    rewrite map_map, zip_with_map_map.
    apply map_ext. intros r.
    replace (columns X - k) with (S (columns X - S k)) by lia. simpl.
    replace k with (length (map (loo_mean r) (seq 0 k))) at 1
      by now rewrite length_map, length_seq.
    rewrite set_at_app, map_app. simpl. now rewrite <- app_assoc.
Qed.

Lemma m_minus_rows (X : DataFrame) :
  wf X -> rows (m_minus_of X) = map loo_row (rows X).
Proof.
  intros Hwf. unfold m_minus_of.
  destruct (m_minus_prefix X (columns X)) as [_ ->]; [lia|].
  apply map_ext_in. intros r Hr. rewrite Nat.sub_diag. simpl. rewrite app_nil_r.
  unfold loo_row. unfold wf in Hwf. rewrite Forall_forall in Hwf.
  now rewrite (Hwf _ Hr).
Qed.

Lemma m_minus_columns (X : DataFrame) : columns (m_minus_of X) = columns X.
Proof. unfold m_minus_of. now destruct (m_minus_prefix X (columns X)) as [-> _]. Qed.

Lemma m_minus_shape (X : DataFrame) T N : shape X T N -> shape (m_minus_of X) T N.
Proof.
  intros HX. pose proof (shape_is_wf _ _ _ HX) as Hwf. destruct HX as (Hc & Hr & Hf).
  repeat split.
  - now rewrite m_minus_columns.
  - now rewrite m_minus_rows, length_map.
  - rewrite m_minus_rows by exact Hwf. apply Forall_map.
    eapply Forall_impl; [|exact Hf]. simpl. intros r Hl.
    unfold loo_row. now rewrite length_map, length_seq.
Qed.

Lemma iloc_m_minus (X : DataFrame) t i r :
  wf X -> nth_error (rows X) t = Some r -> i < length r ->
  iloc (m_minus_of X) t i = Some (loo_mean r i).
Proof.
  intros Hwf Hr Hi. unfold iloc. rewrite m_minus_rows by exact Hwf.
  rewrite nth_error_map, Hr. simpl. unfold loo_row.
  rewrite nth_error_map, nth_error_seq.
  destruct (Nat.ltb_spec i (length r)); [reflexivity | lia].
Qed.

(** *** The raw weights, cell by cell *)

Lemma compute_rows (X : DataFrame) :
  rows (compute_pioneer_weights_simple X) = map normalise (rows (raw_of X)).
Proof.
  unfold compute_pioneer_weights_simple. fold (raw_of X). cbv zeta.
  unfold div_axis0, replace_zero_nan, sum_axis1. cbn [rows].
  rewrite map_map, zip_with_map_r. reflexivity.
Qed.

Lemma compute_columns (X : DataFrame) :
  columns (compute_pioneer_weights_simple X) = columns X.
Proof. exact (m_minus_columns X). Qed.

Lemma iloc_raw (X : DataFrame) t i :
  wf X ->
  iloc (raw_of X) t i =
  match iloc X t i, iloc (m_minus_of X) t i,
        iloc (shift1 X) t i, iloc (shift1 (m_minus_of X)) t i with
  | Some xt, Some mt, Some xp, Some mp => Some (raw_cell xp mp xt mt)
  | _, _, _, _ => None
  end.
Proof.
  intros Hwf. pose proof (shape_wf _ Hwf) as HX.
  pose proof (m_minus_shape _ _ _ HX) as HM.
  unfold raw_of, astype_float. cbv zeta.
  unfold where_else0, df_and, df_gt0, df_lt, df_gt, df_div, df_add, df_abs, diff, df_sub.
  rewrite (shift1_map c_abs) by reflexivity.
  rewrite (shift1_map2 c_sub _ _ _ _ (eq_refl : c_sub nan nan = nan) HX HM).
  repeat (rewrite ?iloc_map2, ?iloc_map).
  destruct (iloc X t i) as [xt|], (iloc (m_minus_of X) t i) as [mt|],
    (iloc (shift1 X) t i) as [xp|], (iloc (shift1 (m_minus_of X)) t i) as [mp|];
    reflexivity.
Qed.

Lemma Qeq_bool_pos (d : Q) : (0 < d)%Q -> Qeq_bool d 0 = false.
Proof.
  intros H. destruct (Qeq_bool d 0) eqn:E; [|reflexivity].
  apply Qeq_bool_iff in E. rewrite E in H. exfalso. exact (Qlt_irrefl _ H).
Qed.

(** A raw weight is either the constant [0.0] of [where], or the proportion of
    a position at which the three conditions hold on finite values. *)
Lemma raw_cell_cases (xp mp xt mt : cell) :
  raw_cell xp mp xt mt = Some 0%Q \/
  exists a b c d,
    xp = Some a /\ mp = Some b /\ xt = Some c /\ mt = Some d /\
    pioneer_conditions a b c d /\
    raw_cell xp mp xt mt = Some (proportion_of a b c d).
Proof.
  unfold raw_cell. cbv zeta.
  destruct (c_lt (c_abs (c_sub xt mt)) (c_abs (c_sub xp mp))
            && c_gt (c_abs (c_sub mt mp)) (c_abs (c_sub xt xp))
            && c_gt (c_add (c_abs (c_sub mt mp)) (c_abs (c_sub xt xp))) (Some 0%Q))
    eqn:Hmask; [right | now left].
  apply andb_true_iff in Hmask as [Hmask H3].
  apply andb_true_iff in Hmask as [H1 H2].
  destruct xp as [a|], mp as [b|], xt as [c|], mt as [d|]; simpl in H1, H2, H3;
    try discriminate.
  apply Qlt_bool_iff in H1, H2, H3.
  exists a, b, c, d. repeat split; auto.
  simpl. now rewrite (Qeq_bool_pos _ H3).
Qed.

Lemma proportion_pos a b c d :
  pioneer_conditions a b c d -> (0 < proportion_of a b c d)%Q.
Proof.
  intros [_ H2 H3]. unfold proportion_of.
  apply Qlt_shift_div_l; [exact H3|]. rewrite Qmult_0_l.
  eapply Qle_lt_trans; [apply Qabs_nonneg | exact H2].
Qed.

(** The division of Step 3 never divides a nonzero value by zero. *)
Lemma proportion_division_exact (dm dx : Q) :
  (Qabs dm + Qabs dx == 0)%Q -> (Qabs dm == 0)%Q.
Proof.
  intros H. apply Qle_antisym; [|apply Qabs_nonneg].
  rewrite <- H. rewrite <- (Qplus_0_r (Qabs dm)) at 1.
  apply Qplus_le_r. apply Qabs_nonneg.
Qed.

(** *** Rows of finite non-negative values and their normalisation *)

Lemma nansum_Some (l : list Q) : nansum (map Some l) = Qsum l.
Proof. induction l as [|x l IH]; simpl; congruence. Qed.


Lemma Qsum_nonneg (l : list Q) : Forall (fun x => 0 <= x)%Q l -> (0 <= Qsum l)%Q.
Proof.
  induction 1 as [|x l Hx Hl IH]; simpl; [apply Qle_refl|].
  rewrite <- (Qplus_0_r 0). now apply Qplus_le_compat.
Qed.

Lemma Qsum_in_le (l : list Q) x :
  Forall (fun x => 0 <= x)%Q l -> In x l -> (x <= Qsum l)%Q.
Proof.
  induction 1 as [|y l Hy Hl IH]; simpl; [contradiction|].
  intros [->|Hin].
  - rewrite <- (Qplus_0_r x) at 1. apply Qplus_le_r. now apply Qsum_nonneg.
  - rewrite <- (Qplus_0_l x). apply Qplus_le_compat; auto.
Qed.

Lemma Qsum_pos_exists (l : list Q) :
  Forall (fun x => 0 <= x)%Q l -> (0 < Qsum l)%Q -> Exists (fun x => 0 < x)%Q l.
Proof.
  induction 1 as [|y l Hy Hl IH]; simpl; intros H.
  - exfalso. exact (Qlt_irrefl _ H).
  - destruct (Qlt_le_dec 0 y) as [Hpos|Hle]; [now left | right].
    apply IH. assert (y == 0)%Q as E by now apply Qle_antisym.
    rewrite E, Qplus_0_l in H. exact H.
Qed.

Lemma Qsum_div (l : list Q) (s : Q) :
  ~ (s == 0)%Q -> (Qsum (map (fun x => x / s) l) == Qsum l / s)%Q.
Proof.
  intros Hs. induction l as [|x l IH]; simpl.
  - field. exact Hs.
  - rewrite IH. field. exact Hs.
Qed.

Lemma normalise_Some (l : list Q) :
  normalise (map Some l) =
  if Qeq_bool (Qsum l) 0 then map (fun _ => nan) l
  else map (fun x => Some (x / Qsum l)%Q) l.
Proof.
  unfold normalise, row_sum. rewrite nansum_Some. simpl.
  destruct (Qeq_bool (Qsum l) 0) eqn:E; rewrite map_map; simpl.
  - reflexivity.
  - rewrite E. reflexivity.
Qed.

(** The divisor of the normalisation is NaN or nonzero. *)
Lemma normalise_divisor_nonzero (r : list cell) :
  c_eqz (if c_eqz (row_sum r) then nan else row_sum r) = false.
Proof. destruct (c_eqz (row_sum r)) eqn:E; [reflexivity | exact E]. Qed.

(** *** The rows of [raw] *)

Lemma raw_shape (X : DataFrame) T N : shape X T N -> shape (raw_of X) T N.
Proof.
  intros HX. pose proof (m_minus_shape _ _ _ HX) as HM.
  unfold raw_of, astype_float, where_else0, df_and, df_gt0, df_lt, df_gt, df_div,
    df_add, df_abs, diff, df_sub. cbv zeta.
  repeat (apply shape_map2 || apply shape_map || apply shape_shift1); assumption.
Qed.

Lemma raw_cell_nan_prev (mp xt mt : cell) : raw_cell nan mp xt mt = Some 0%Q.
Proof. destruct mp, xt, mt; reflexivity. Qed.

Lemma all_Some_list (P : Q -> Prop) (r : list cell) :
  (forall i c, nth_error r i = Some c -> exists x, c = Some x /\ P x) ->
  exists l, r = map Some l /\ Forall P l.
Proof.
  induction r as [|c r IH]; intros H.
  - exists []. split; [reflexivity | constructor].
  - destruct (H 0 c eq_refl) as (x & -> & Hx).
    destruct IH as (l & -> & Hl).
    { intros i c Hi. exact (H (S i) c Hi). }
    exists (x :: l). split; [reflexivity | now constructor].
Qed.

Lemma iloc_raw_nonneg (X : DataFrame) t i c :
  wf X -> iloc (raw_of X) t i = Some c -> exists x, c = Some x /\ (0 <= x)%Q.
Proof.
  intros Hwf. rewrite iloc_raw by exact Hwf.
  destruct (iloc X t i) as [xt|]; [|discriminate].
  destruct (iloc (m_minus_of X) t i) as [mt|]; [|discriminate].
  destruct (iloc (shift1 X) t i) as [xp|]; [|discriminate].
  destruct (iloc (shift1 (m_minus_of X)) t i) as [mp|]; [|discriminate].
  intros [= <-].
  destruct (raw_cell_cases xp mp xt mt) as [->|(a & b & c' & d & _ & _ & _ & _ & Hc & ->)].
  - exists 0%Q. split; [reflexivity | apply Qle_refl].
  - exists (proportion_of a b c' d). split; [reflexivity|].
    apply Qlt_le_weak. now apply proportion_pos.
Qed.

Lemma raw_row_nonneg (X : DataFrame) t r :
  wf X -> nth_error (rows (raw_of X)) t = Some r ->
  exists l, r = map Some l /\ Forall (fun x => 0 <= x)%Q l.
Proof.
  intros Hwf Hr. apply all_Some_list. intros i c Hi.
  apply (iloc_raw_nonneg X t i c Hwf). unfold iloc. now rewrite Hr.
Qed.

(** A positive raw weight comes from a position, not in the first period,
    where the three conditions hold on finite values. *)
Lemma iloc_raw_pos (X : DataFrame) t i x :
  wf X -> iloc (raw_of X) t i = Some (Some x) -> (0 < x)%Q ->
  exists t' xp mp xt mt,
    t = S t' /\
    iloc X t' i = Some (Some xp) /\ iloc (m_minus_of X) t' i = Some (Some mp) /\
    iloc X t i = Some (Some xt) /\ iloc (m_minus_of X) t i = Some (Some mt) /\
    pioneer_conditions xp mp xt mt.
Proof.
  intros Hwf. rewrite iloc_raw by exact Hwf.
  destruct (iloc X t i) as [xt|] eqn:EX; [|discriminate].
  destruct (iloc (m_minus_of X) t i) as [mt|] eqn:EM; [|discriminate].
  destruct (iloc (shift1 X) t i) as [xp|] eqn:EXp; [|discriminate].
  destruct (iloc (shift1 (m_minus_of X)) t i) as [mp|] eqn:EMp; [|discriminate].
  intros [= Hraw] Hpos.
  destruct (raw_cell_cases xp mp xt mt) as [E|(a & b & c & d & -> & -> & -> & -> & Hc & _)].
  - rewrite E in Hraw. injection Hraw as <-. exfalso. exact (Qlt_irrefl _ Hpos).
  - destruct t as [|t'].
    + rewrite iloc_shift1_0 in EXp. destruct (rows X); [discriminate|].
      destruct (i <? columns X); discriminate.
    + rewrite iloc_shift1_S in EXp, EMp.
      destruct (S t' <? length (rows X)); [|discriminate].
      destruct (S t' <? length (rows (m_minus_of X))); [|discriminate].
      exists t', a, b, c, d. auto 10.
Qed.

(** *** The rows of the weights *)

Lemma normalise_nonneg (l : list Q) :
  Forall (fun x => 0 <= x)%Q l ->
  ((Qsum l == 0)%Q /\ normalise (map Some l) = map (fun _ => nan) l) \/
  ((0 < Qsum l)%Q /\ normalise (map Some l) = map (fun x => Some (x / Qsum l)%Q) l /\
   unit_row (normalise (map Some l))).
Proof.
  intros Hl. rewrite normalise_Some.
  destruct (Qeq_bool (Qsum l) 0) eqn:E.
  - left. split; [now apply Qeq_bool_iff | reflexivity].
  - right.
    assert (~ (Qsum l == 0)%Q) as Hne.
    { intros H. apply Qeq_bool_iff in H. congruence. }
    assert (0 < Qsum l)%Q as Hpos.
    { destruct (Qlt_le_dec 0 (Qsum l)) as [H|H]; [exact H|].
      exfalso. apply Hne. apply Qle_antisym; [exact H | now apply Qsum_nonneg]. }
    split; [exact Hpos|]. split; [reflexivity|].
    exists (map (fun x => x / Qsum l)%Q l). repeat split.
    + now rewrite map_map.
    + apply Forall_map. rewrite Forall_forall in *. intros x Hx. split.
      * apply Qle_shift_div_l; [exact Hpos|]. rewrite Qmult_0_l. now apply Hl.
      * apply Qle_shift_div_r; [exact Hpos|]. rewrite Qmult_1_l.
        apply Qsum_in_le; [now apply Forall_forall | exact Hx].
    + rewrite Qsum_div by exact Hne. field. exact Hne.
    + apply Exists_map. pose proof (Qsum_pos_exists _ Hl Hpos) as Hex.
      eapply Exists_impl; [|exact Hex]. simpl. intros x Hx.
      apply Qlt_shift_div_l; [exact Hpos|]. now rewrite Qmult_0_l.
Qed.

Lemma weights_row (X : DataFrame) t r :
  wf X -> nth_error (rows (compute_pioneer_weights_simple X)) t = Some r ->
  exists l,
    nth_error (rows (raw_of X)) t = Some (map Some l) /\
    Forall (fun x => 0 <= x)%Q l /\
    r = normalise (map Some l).
Proof.
  intros Hwf. rewrite compute_rows, nth_error_map.
  destruct (nth_error (rows (raw_of X)) t) as [rr|] eqn:E; [|discriminate].
  simpl. intros [= <-].
  destruct (raw_row_nonneg _ _ _ Hwf E) as (l & -> & Hl). eauto.
Qed.


Lemma compute_shape (X : DataFrame) T N :
  shape X T N -> shape (compute_pioneer_weights_simple X) T N.
Proof.
  intros HX. pose proof (raw_shape _ _ _ HX) as (Hc & Hr & Hf).
  destruct HX as (HcX & _ & _). repeat split.
  - now rewrite compute_columns.
  - now rewrite compute_rows, length_map.
  - rewrite compute_rows. apply Forall_map. eapply Forall_impl; [|exact Hf].
    simpl. intros r Hl. unfold normalise. now rewrite length_map.
Qed.

(** ** The claims on the weight engine *)


Lemma scenario_wf : wf scenario.
Proof. repeat constructor. Qed.


(** A row of weights without a positive raw weight behind it is undefined. *)
Lemma weights_row_undefined (X : DataFrame) t r :
  wf X ->
  nth_error (rows (compute_pioneer_weights_simple X)) t = Some r ->
  (forall i x, iloc (raw_of X) t i = Some (Some x) -> ~ (0 < x)%Q) ->
  undefined_row r.
Proof.
  intros Hwf Hr Hno. destruct (weights_row _ _ _ Hwf Hr) as (l & Hraw & Hl & ->).
  destruct (normalise_nonneg _ Hl) as [[_ Hn]|(Hpos & _ & _)].
  - rewrite Hn. unfold undefined_row. apply Forall_map. now apply Forall_forall.
  - exfalso. pose proof (Qsum_pos_exists _ Hl Hpos) as Hex.
    apply Exists_exists in Hex as (x & Hin & Hx).
    apply In_nth_error in Hin as (i & Hi).
    apply (Hno i x); [|exact Hx].
    unfold iloc. rewrite Hraw, nth_error_map, Hi. reflexivity.
Qed.

(** *** The leave-one-out benchmark against its specification *)












Lemma raw_first_row_zero (X : DataFrame) i x :
  wf X -> iloc (raw_of X) 0 i = Some (Some x) -> ~ (0 < x)%Q.
Proof.
  intros Hwf Hx Hpos.
  destruct (iloc_raw_pos _ _ _ _ Hwf Hx Hpos) as (t' & _ & _ & _ & _ & Ht & _).
  discriminate.
Qed.

(** C6.  Every weight of the first period is undefined. *)
Theorem first_row_undefined (X : DataFrame) (i : nat) :
  wf X ->
  0 < length (rows X) ->
  i < columns X ->
  iloc (compute_pioneer_weights_simple X) 0 i = Some nan.
Proof.
  intros Hwf HT Hi.
  pose proof (compute_shape _ _ _ (shape_wf _ Hwf)) as HW.
  destruct (iloc_in_range (compute_pioneer_weights_simple X) 0 i) as [c Hc].
  - exact (shape_is_wf _ _ _ HW).
  - destruct HW as (_ & -> & _). exact HT.
  - destruct HW as (-> & _). exact Hi.
  - rewrite Hc. f_equal. unfold iloc in Hc.
    destruct (nth_error (rows (compute_pioneer_weights_simple X)) 0) as [r|] eqn:E;
      [|discriminate].
    assert (undefined_row r) as Hu.
    { apply (weights_row_undefined X 0 r Hwf E).
      intros k x. now apply raw_first_row_zero. }
    unfold undefined_row in Hu. rewrite Forall_forall in Hu. apply Hu.
    eapply nth_error_In; eauto.
Qed.

Lemma first_row_undefined_witness :
  wf scenario /\ 0 < length (rows scenario) /\ 2 < columns scenario /\
  iloc (compute_pioneer_weights_simple scenario) 0 2 = Some nan.
Proof.
  assert (0 < length (rows scenario)) as HT by (simpl; lia).
  assert (2 < columns scenario) as Hi by (simpl; lia).
  split; [exact scenario_wf|]. split; [exact HT|]. split; [exact Hi|].
  exact (first_row_undefined scenario 2 scenario_wf HT Hi).
Defined.






(** ** The pooler *)

Lemma setitem_select (p : Series) (key : list bool) (s : Series) (v : Selection) t :
  length p = length key -> length key = length s ->
  (forall k, t <= k -> lookup_label k v = lookup_label k (select_from t s key)) ->
  setitem_from t p key v = assign_where p key s.
Proof.
  revert key s t. induction p as [|c p IH]; intros [|b key] [|x s] t Hp Hs Hv;
    simpl in *; try discriminate; auto.
  f_equal.
  - destruct b; [|reflexivity].
    rewrite (Hv t (Nat.le_refl t)). simpl. now rewrite Nat.eqb_refl.
  - apply IH; [lia | lia |]. intros k Hk. rewrite (Hv k) by lia.
    destruct b; simpl; [|reflexivity].
    destruct (Nat.eqb_spec t k); [lia | reflexivity].
Qed.

Lemma nth_error_assign_where (p : Series) (key : list bool) (s : Series) n :
  nth_error (assign_where p key s) n =
  match nth_error p n, nth_error key n, nth_error s n with
  | Some a, Some b, Some c => Some (if b then c else a)
  | _, _, _ => None
  end.
Proof.
  revert key s n. induction p as [|a p IH]; intros key s n.
  - destruct n; reflexivity.
  - destruct key as [|b key].
    + destruct n as [|n]; simpl; [reflexivity|]. destruct (nth_error p n); reflexivity.
    + destruct s as [|c s].
      * destruct n as [|n]; simpl; [reflexivity|].
        destruct (nth_error p n); [|reflexivity].
        destruct (nth_error key n); reflexivity.
      * destruct n as [|n]; simpl; [reflexivity | apply IH].
Qed.

Lemma pooled_assign (F W : DataFrame) :
  length (rows F) = length (rows W) ->
  pooled_forecast_simple F W =
  assign_where (sum_axis1_min1 (df_mul F W))
    (map (fun c => isna c || c_eqz c) (sum_axis1_min1 W)) (mean_axis1 F).
Proof.
  intros H. unfold pooled_forecast_simple, astype_float, setitem_mask, getitem_mask.
  cbv zeta. apply setitem_select.
  - unfold sum_axis1_min1, df_mul, frame_map2. cbn [rows].
    rewrite !length_map, zip_with_length. lia.
  - unfold sum_axis1_min1, mean_axis1. rewrite !length_map. lia.
  - reflexivity.
Qed.

(** The pooled series, period by period. *)
Lemma nth_error_pooled (F W : DataFrame) t fr wr :
  length (rows F) = length (rows W) ->
  nth_error (rows F) t = Some fr -> nth_error (rows W) t = Some wr ->
  nth_error (pooled_forecast_simple F W) t = Some (pooled_row fr wr).
Proof.
  intros H Hf Hw. rewrite pooled_assign by exact H.
  rewrite nth_error_assign_where.
  unfold sum_axis1_min1, mean_axis1, df_mul, frame_map2. cbn [rows].
  rewrite !nth_error_map, nth_error_zip_with, Hf, Hw. reflexivity.
Qed.













(** ** The source over the object store *)

Section HeapFacts.
Import Heap.
Local Open Scope heap_scope.

Lemma lookup_here (h : store) (o : obj) : nth_error (h ++ [o]) (length h) = Some o.
Proof. rewrite nth_error_app2, Nat.sub_diag by lia. reflexivity. Qed.

Lemma lookup_there (h : store) (l : loc) (o o' : obj) :
  nth_error h l = Some o -> nth_error (h ++ [o']) l = Some o.
Proof.
  intros H. rewrite nth_error_app1; [exact H|]. apply nth_error_Some. congruence.
Qed.

Lemma nth_error_set_at_eq {A} (l : list A) j v :
  j < length l -> nth_error (set_at j v l) j = Some v.
Proof.
  revert j. induction l as [|a l IH]; intros [|j] H; simpl in *; try lia; auto.
  apply IH. lia.
Qed.

Lemma nth_error_set_at_ne {A} (l : list A) j k v :
  j <> k -> nth_error (set_at j v l) k = nth_error l k.
Proof.
  revert j k. induction l as [|a l IH]; intros [|j] [|k] H; simpl; auto; try lia.
Qed.

Lemma returns_bind {A B} (c : M A) (k : A -> M B) h a h1 b h2 :
  returns c h a h1 -> returns (k a) h1 b h2 -> returns (bind c k) h b h2.
Proof. unfold returns, bind. intros -> H. exact H. Qed.

Lemma returns_ret {A} (a : A) h : returns (ret a) h a h.
Proof. reflexivity. Qed.

Ltac run_reads :=
  unfold returns, frame_op1, frame_op2, frame_cmp, frame_test, mask_and, frame_where,
    frame_reduce, series_op1, series_test, bools_or, frame_div_axis0,
    series_getitem_mask, columns_of, setitem_column, series_setitem_mask,
    read_frame, read_mask, read_series, read_bools, read_selection,
    bind, read, alloc, ret;
  intros;
  repeat match goal with
         | H : nth_error _ _ = Some _ |- _ => rewrite H; clear H
         end;
  try reflexivity.

Lemma frame_op1_returns f x h X :
  nth_error h x = Some (OFrame X) ->
  returns (frame_op1 f x) h (length h) (h ++ [OFrame (f X)]).
Proof. run_reads. Qed.

Lemma frame_op2_returns f x y h X Y :
  nth_error h x = Some (OFrame X) -> nth_error h y = Some (OFrame Y) ->
  returns (frame_op2 f x y) h (length h) (h ++ [OFrame (f X Y)]).
Proof. run_reads. Qed.

Lemma frame_cmp_returns f x y h X Y :
  nth_error h x = Some (OFrame X) -> nth_error h y = Some (OFrame Y) ->
  returns (frame_cmp f x y) h (length h) (h ++ [OMask (f X Y)]).
Proof. run_reads. Qed.

Lemma frame_test_returns f x h X :
  nth_error h x = Some (OFrame X) ->
  returns (frame_test f x) h (length h) (h ++ [OMask (f X)]).
Proof. run_reads. Qed.

Lemma mask_and_returns a b h A B :
  nth_error h a = Some (OMask A) -> nth_error h b = Some (OMask B) ->
  returns (mask_and a b) h (length h) (h ++ [OMask (df_and A B)]).
Proof. run_reads. Qed.

Lemma frame_where_returns p m h P B :
  nth_error h p = Some (OFrame P) -> nth_error h m = Some (OMask B) ->
  returns (frame_where p m) h (length h) (h ++ [OFrame (where_else0 P B)]).
Proof. run_reads. Qed.

Lemma frame_reduce_returns f x h X :
  nth_error h x = Some (OFrame X) ->
  returns (frame_reduce f x) h (length h) (h ++ [OSeries (f X)]).
Proof. run_reads. Qed.

Lemma series_op1_returns f s h S :
  nth_error h s = Some (OSeries S) ->
  returns (series_op1 f s) h (length h) (h ++ [OSeries (f S)]).
Proof. run_reads. Qed.

Lemma series_test_returns f s h S :
  nth_error h s = Some (OSeries S) ->
  returns (series_test f s) h (length h) (h ++ [OBools (map f S)]).
Proof. run_reads. Qed.

Lemma bools_or_returns a b h A B :
  nth_error h a = Some (OBools A) -> nth_error h b = Some (OBools B) ->
  returns (bools_or a b) h (length h) (h ++ [OBools (zip_with orb A B)]).
Proof. run_reads. Qed.

Lemma frame_div_axis0_returns r s h R S :
  nth_error h r = Some (OFrame R) -> nth_error h s = Some (OSeries S) ->
  returns (frame_div_axis0 r s) h (length h) (h ++ [OFrame (div_axis0 R S)]).
Proof. run_reads. Qed.

Lemma series_getitem_mask_returns s key h S K :
  nth_error h s = Some (OSeries S) -> nth_error h key = Some (OBools K) ->
  returns (series_getitem_mask s key) h (length h)
    (h ++ [OSelection (getitem_mask S K)]).
Proof. run_reads. Qed.

Lemma columns_of_returns x h X :
  nth_error h x = Some (OFrame X) -> returns (columns_of x) h (columns X) h.
Proof. run_reads. Qed.

Lemma write_returns l o h :
  l < length h -> returns (write l o) h tt (set_at l o h).
Proof.
  intros H. unfold returns, write.
  destruct (Nat.ltb_spec l (length h)); [reflexivity | lia].
Qed.

Lemma setitem_column_returns m col s h Mf S :
  nth_error h m = Some (OFrame Mf) -> nth_error h s = Some (OSeries S) ->
  returns (setitem_column m col s) h tt (set_at m (OFrame (set_column Mf col S)) h).
Proof.
  intros Hm Hs. unfold setitem_column.
  eapply returns_bind; [unfold returns, read_frame, bind, read, ret; rewrite Hm; reflexivity|].
  eapply returns_bind; [unfold returns, read_series, bind, read, ret; rewrite Hs; reflexivity|].
  apply write_returns. apply nth_error_Some. congruence.
Qed.

Lemma series_setitem_mask_returns p key v h P K V :
  nth_error h p = Some (OSeries P) -> nth_error h key = Some (OBools K) ->
  nth_error h v = Some (OSelection V) ->
  returns (series_setitem_mask p key v) h tt
    (set_at p (OSeries (setitem_mask P K V)) h).
Proof.
  intros Hp Hk Hv. unfold series_setitem_mask.
  eapply returns_bind; [unfold returns, read_series, bind, read, ret; rewrite Hp; reflexivity|].
  eapply returns_bind; [unfold returns, read_bools, bind, read, ret; rewrite Hk; reflexivity|].
  eapply returns_bind; [unfold returns, read_selection, bind, read, ret; rewrite Hv; reflexivity|].
  apply write_returns. apply nth_error_Some. congruence.
Qed.
End HeapFacts.

Ltac lookup :=
  repeat first [ eassumption | apply lookup_here | apply lookup_there ].

Ltac run_step :=
  eapply returns_bind;
  [ first [ eapply frame_op1_returns | eapply frame_op2_returns
          | eapply frame_cmp_returns | eapply frame_test_returns
          | eapply mask_and_returns | eapply frame_where_returns
          | eapply frame_reduce_returns | eapply series_op1_returns
          | eapply series_test_returns | eapply bools_or_returns
          | eapply frame_div_axis0_returns | eapply series_getitem_mask_returns
          | eapply columns_of_returns | eapply series_setitem_mask_returns ];
    lookup
  | cbv beta ].

Ltac app_lengths := rewrite ?length_app; simpl; lia.

(** The loop of Step 0 updates the frame at [m] only. *)
Lemma m_minus_loop_returns (X : DataFrame) (x m : Heap.loc) (cols : list nat) :
  x <> m ->
  forall (h : Heap.store) (Mf : DataFrame),
    nth_error h x = Some (Heap.OFrame X) ->
    nth_error h m = Some (Heap.OFrame Mf) ->
    exists h',
      Heap.returns
        (Heap.for_each cols
           (fun col =>
              Heap.bind (Heap.frame_op1 (fun X => drop X col) x) (fun others =>
              Heap.bind (Heap.frame_reduce mean_axis1 others) (fun mean_others =>
              Heap.setitem_column m col mean_others))))
        h tt h' /\
      nth_error h' m =
        Some (Heap.OFrame
                (fold_left
                   (fun m_minus col => set_column m_minus col (mean_axis1 (drop X col)))
                   cols Mf)) /\
      (forall l, l < length h -> l <> m -> nth_error h' l = nth_error h l) /\
      length h <= length h'.
Proof.
  intros Hxm. induction cols as [|col cols IH]; intros h Mf Hx Hm.
  - exists h. repeat split; auto.
  - set (h1 := h ++ [Heap.OFrame (drop X col)]).
    set (h2 := h1 ++ [Heap.OSeries (mean_axis1 (drop X col))]).
    set (h3 := set_at m (Heap.OFrame (set_column Mf col (mean_axis1 (drop X col)))) h2).
    assert (m < length h) as Hlt by (apply nth_error_Some; congruence).
    assert (x < length h) as Hltx by (apply nth_error_Some; congruence).
    destruct (IH h3 (set_column Mf col (mean_axis1 (drop X col)))) as (h' & Hrun & Hm' & Hpres & Hlen).
    + unfold h3. rewrite nth_error_set_at_ne by (intros E; apply Hxm; now symmetry).
      unfold h2, h1. lookup.
    + unfold h3. apply nth_error_set_at_eq. unfold h2, h1. app_lengths.
    + exists h'. split; [|split; [exact Hm'|split]].
      * simpl Heap.for_each. eapply returns_bind; [|exact Hrun].
        eapply returns_bind; [eapply frame_op1_returns; exact Hx|]. cbv beta.
        eapply returns_bind; [eapply frame_reduce_returns; lookup|]. cbv beta.
        eapply setitem_column_returns; unfold h1; lookup.
      * intros l Hl Hlm. rewrite Hpres.
        -- unfold h3. rewrite nth_error_set_at_ne by (intros E; apply Hlm; now symmetry).
           unfold h2, h1. rewrite !nth_error_app1 by app_lengths. reflexivity.
        -- unfold h3. rewrite set_at_length. unfold h2, h1. app_lengths.
        -- exact Hlm.
      * unfold h3 in Hlen. rewrite set_at_length in Hlen. unfold h2, h1 in Hlen.
        rewrite !length_app in Hlen. simpl in Hlen. lia.
Qed.

(** The store-level weight engine does not raise, returns a new frame that
    holds the weights of the value-level function, and leaves every object
    of the initial store as it was. *)
Lemma compute_returns (h : Heap.store) (f : Heap.loc) (F : DataFrame) :
  nth_error h f = Some (Heap.OFrame F) ->
  exists w h',
    Heap.returns (Heap.compute_pioneer_weights_simple f) h w h' /\
    nth_error h' w = Some (Heap.OFrame (compute_pioneer_weights_simple F)) /\
    length h <= w /\
    Heap.preserved h h'.
Proof.
  intros Hf.
  set (X := astype_float F).
  set (h1 := h ++ [Heap.OFrame X]).
  set (h2 := h1 ++ [Heap.OFrame (empty_like X)]).
  assert (nth_error h2 (length h) = Some (Heap.OFrame X)) as Hx2
    by (unfold h2, h1; lookup).
  assert (nth_error h2 (length h1) = Some (Heap.OFrame (empty_like X))) as Hm2
    by (unfold h2; lookup).
  assert (length h <> length h1) as Hne by (unfold h1; app_lengths).
  destruct (m_minus_loop_returns X (length h) (length h1) (seq 0 (columns X)) Hne
              h2 (empty_like X) Hx2 Hm2) as (h3 & Hloop & Hm3 & Hpres & Hlen).
  fold (m_minus_of X) in Hm3.
  assert (nth_error h3 (length h) = Some (Heap.OFrame X)) as Hx3.
  { rewrite Hpres; [exact Hx2 | unfold h2, h1; app_lengths | exact Hne]. }
  eexists _, _. split; [|split; [|split]].
  - unfold Heap.compute_pioneer_weights_simple.
    eapply returns_bind; [eapply frame_op1_returns; exact Hf|]. cbv beta.
    eapply returns_bind; [eapply frame_op1_returns; lookup|]. cbv beta.
    eapply returns_bind; [eapply columns_of_returns; lookup|]. cbv beta.
    eapply returns_bind; [exact Hloop|]. cbv beta.
    do 21 run_step.
    apply returns_ret.
  - lookup.
  - unfold h2, h1 in Hlen. rewrite !length_app in *. simpl in *. lia.
  - intros l Hl.
    assert (l < length h3) as Hl3.
    { unfold h2, h1 in Hlen. rewrite !length_app in Hlen. simpl in Hlen. lia. }
    rewrite !nth_error_app1 by app_lengths.
    rewrite Hpres.
    + unfold h2, h1. rewrite !nth_error_app1 by app_lengths. reflexivity.
    + unfold h2, h1. app_lengths.
    + unfold h1. app_lengths.
Qed.

(** The store-level pooler does not raise, returns a new series that holds
    the pooled forecasts of the value-level function, and leaves every object
    of the initial store as it was. *)
Lemma pooled_returns (h : Heap.store) (f w : Heap.loc) (F W : DataFrame) :
  nth_error h f = Some (Heap.OFrame F) ->
  nth_error h w = Some (Heap.OFrame W) ->
  exists p h',
    Heap.returns (Heap.pooled_forecast_simple f w) h p h' /\
    nth_error h' p = Some (Heap.OSeries (pooled_forecast_simple F W)) /\
    length h <= p /\
    Heap.preserved h h'.
Proof.
  intros Hf Hw.
  eexists _, _. split; [|split; [|split]].
  - unfold Heap.pooled_forecast_simple.
    do 12 run_step.
    apply returns_ret.
  - rewrite nth_error_set_at_eq by app_lengths.
    unfold pooled_forecast_simple. cbv zeta.
    rewrite zip_with_map_map. reflexivity.
  - app_lengths.
  - intros l Hl.
    rewrite nth_error_set_at_ne by app_lengths.
    rewrite !nth_error_app1 by app_lengths. reflexivity.
Qed.

(** ** The remaining claims *)

(** C9.  Neither function mutates its arguments: run on any store that
    holds the forecasts (and the weights), each returns a reference to a
    new object holding its result, and every object that was in the store
    before the call, the arguments among them, is unchanged after it. *)
Theorem inputs_not_mutated (h : Heap.store) (f w : Heap.loc) (F W : DataFrame) :
  nth_error h f = Some (Heap.OFrame F) ->
  nth_error h w = Some (Heap.OFrame W) ->
  (exists r h',
     Heap.compute_pioneer_weights_simple f h = Some (r, h') /\
     nth_error h' r = Some (Heap.OFrame (compute_pioneer_weights_simple F)) /\
     length h <= r /\
     nth_error h' f = Some (Heap.OFrame F) /\
     forall l, l < length h -> nth_error h' l = nth_error h l) /\
  (exists r h',
     Heap.pooled_forecast_simple f w h = Some (r, h') /\
     nth_error h' r = Some (Heap.OSeries (pooled_forecast_simple F W)) /\
     length h <= r /\
     nth_error h' f = Some (Heap.OFrame F) /\
     nth_error h' w = Some (Heap.OFrame W) /\
     forall l, l < length h -> nth_error h' l = nth_error h l).
Proof.
  intros Hf Hw.
  assert (f < length h) as Hfl by (apply nth_error_Some; congruence).
  assert (w < length h) as Hwl by (apply nth_error_Some; congruence).
  split.
  - destruct (compute_returns h f F Hf) as (r & h' & Hrun & Hr & Hfresh & Hpres).
    exists r, h'. repeat split; auto.
    rewrite (Hpres f Hfl). exact Hf.
  - destruct (pooled_returns h f w F W Hf Hw) as (r & h' & Hrun & Hr & Hfresh & Hpres).
    exists r, h'. repeat split; auto.
    + rewrite (Hpres f Hfl). exact Hf.
    + rewrite (Hpres w Hwl). exact Hw.
Qed.

Lemma inputs_not_mutated_witness :
  let h := [Heap.OFrame scenario; Heap.OFrame (compute_pioneer_weights_simple scenario)] in
  nth_error h 0 = Some (Heap.OFrame scenario) /\
  nth_error h 1 = Some (Heap.OFrame (compute_pioneer_weights_simple scenario)) /\
  (exists r h',
     Heap.compute_pioneer_weights_simple 0 h = Some (r, h') /\
     nth_error h' 0 = Some (Heap.OFrame scenario)) /\
  (exists r h',
     Heap.pooled_forecast_simple 0 1 h = Some (r, h') /\
     nth_error h' 0 = Some (Heap.OFrame scenario) /\
     nth_error h' 1 = Some (Heap.OFrame (compute_pioneer_weights_simple scenario))).
Proof.
  intros h.
  destruct (inputs_not_mutated h 0 1 scenario (compute_pioneer_weights_simple scenario)
              eq_refl eq_refl)
    as [(r & h' & Hrun & _ & _ & Hf & _) (r2 & h2 & Hrun2 & _ & _ & Hf2 & Hw2 & _)].
  split; [reflexivity|]. split; [reflexivity|]. split.
  - exists r, h'. split; [exact Hrun | exact Hf].
  - exists r2, h2. split; [exact Hrun2 | split; [exact Hf2 | exact Hw2]].
Defined.





(** C8.  In the scenario of the specification (E1 = 10, 11, 13, 13;
    E2 = 10, 10, 10, 14; E3 = 10, 9, 9, 15) the weights of period 0 are all
    undefined and the pooled forecast of period 0 is 10, the mean. *)
Theorem scenario_first_period :
  map (fun r => nth 0 r nan) (rows scenario) = [q 10; q 11; q 13; q 13] /\
  map (fun r => nth 1 r nan) (rows scenario) = [q 10; q 10; q 10; q 14] /\
  map (fun r => nth 2 r nan) (rows scenario) = [q 10; q 9; q 9; q 15] /\
  nth_error (rows (compute_pioneer_weights_simple scenario)) 0 = Some [nan; nan; nan] /\
  exists p,
    nth_error (pooled_forecast_simple scenario (compute_pioneer_weights_simple scenario)) 0
      = Some (Some p) /\
    (p == 10)%Q.
Proof.
  split; [reflexivity|]. split; [reflexivity|]. split; [reflexivity|].
  split; [vm_compute; reflexivity|].
  exists (30 # 3)%Q. split; [vm_compute; reflexivity | reflexivity].
Qed.

(** The later periods of the scenario: only E1 is a pioneer, at period 3. *)
Example scenario_weights :
  map (map (option_map Qred)) (rows (compute_pioneer_weights_simple scenario)) =
  [ [nan; nan; nan]; [nan; nan; nan]; [nan; nan; nan]; [q 1; q 0; q 0] ].
Proof. vm_compute. reflexivity. Qed.

Example scenario_pooled :
  map (option_map Qred)
    (pooled_forecast_simple scenario (compute_pioneer_weights_simple scenario)) =
  [q 10; q 10; Some (32 # 3)%Q; q 13].
Proof. vm_compute. reflexivity. Qed.

(** ** Further properties of the weight engine *)

Lemma wf_row_length {A} (X : Frame A) t r :
  wf X -> nth_error (rows X) t = Some r -> length r = columns X.
Proof.
  intros Hwf Hr. unfold wf in Hwf. rewrite Forall_forall in Hwf.
  apply Hwf. eapply nth_error_In; eauto.
Qed.










(** A period of the weights without a positive raw weight is NaN at every
    position. *)
Lemma no_pioneer_iloc (X : DataFrame) t i :
  wf X -> t < length (rows X) -> i < columns X ->
  (forall k x, iloc (raw_of X) t k = Some (Some x) -> ~ (0 < x)%Q) ->
  iloc (compute_pioneer_weights_simple X) t i = Some nan.
Proof.
  intros Hwf Ht Hi Hno.
  pose proof (compute_shape _ _ _ (shape_wf _ Hwf)) as HW.
  destruct (iloc_in_range (compute_pioneer_weights_simple X) t i) as [c Hc].
  - exact (shape_is_wf _ _ _ HW).
  - destruct HW as (_ & -> & _). exact Ht.
  - destruct HW as (-> & _). exact Hi.
  - rewrite Hc. f_equal. unfold iloc in Hc.
    destruct (nth_error (rows (compute_pioneer_weights_simple X)) t) as [r|] eqn:E;
      [|discriminate].
    pose proof (weights_row_undefined X t r Hwf E Hno) as Hu.
    unfold undefined_row in Hu. rewrite Forall_forall in Hu. apply Hu.
    eapply nth_error_In; eauto.
Qed.

(** X4.  When the forecasts of a period repeat those of the period before,
    nobody moved: no expert passes the orientation condition and every weight
    of the period is undefined. *)
Theorem unchanged_period_undefined (X : DataFrame) (t i : nat) (r : list cell) :
  wf X ->
  nth_error (rows X) t = Some r ->
  nth_error (rows X) (S t) = Some r ->
  i < columns X ->
  iloc (compute_pioneer_weights_simple X) (S t) i = Some nan.
Proof.
  intros Hwf Hp Ht Hi. apply no_pioneer_iloc; auto.
  - apply nth_error_Some. congruence.
  - intros k x Hx Hpos.
    destruct (iloc_raw_pos _ _ _ _ Hwf Hx Hpos)
      as (t' & xp & mp & xt & mt & [= <-] & H1 & H2 & H3 & H4 & [_ Ho _]).
    assert (k < length r) as Hk.
    { unfold iloc in H1. rewrite Hp in H1. apply nth_error_Some. congruence. }
    rewrite (iloc_m_minus X t k r Hwf Hp Hk) in H2.
    rewrite (iloc_m_minus X (S t) k r Hwf Ht Hk) in H4.
    unfold iloc in H1, H3. rewrite Hp in H1. rewrite Ht in H3.
    assert (xt = xp) as -> by congruence.
    assert (mt = mp) as -> by congruence.
    assert (Qabs (mp - mp) == 0)%Q as E.
    { setoid_replace (mp - mp)%Q with 0%Q by ring. reflexivity. }
    rewrite E in Ho. exact (Qlt_not_le _ _ Ho (Qabs_nonneg _)).
Qed.

Lemma unchanged_period_undefined_witness :
  iloc (compute_pioneer_weights_simple
          (mkFrame 2 [ [q 1; q 5]; [q 2; q 4]; [q 2; q 4] ])) 2 1 = Some nan.
Proof.
  apply (unchanged_period_undefined
           (mkFrame 2 [ [q 1; q 5]; [q 2; q 4]; [q 2; q 4] ]) 1 1 [q 2; q 4]).
  - repeat constructor.
  - reflexivity.
  - reflexivity.
  - simpl. lia.
Defined.






(** ** Further properties of the pooler *)







(** X9.  Without any expert the weights have empty rows and every pooled
    value is undefined: nothing is divided by the number of experts. *)
Theorem no_expert_pipeline (F : DataFrame) (t : nat) :
  wf F ->
  columns F = 0 ->
  t < length (rows F) ->
  nth_error (rows (compute_pioneer_weights_simple F)) t = Some [] /\
  nth_error (pooled_forecast_simple F (compute_pioneer_weights_simple F)) t
  = Some nan.
Proof.
  intros Hwf Hc Ht.
  pose proof (compute_shape _ _ _ (shape_wf _ Hwf)) as (_ & HWr & HWf).
  destruct (nth_error (rows F) t) as [fr|] eqn:Ef;
    [|apply nth_error_None in Ef; lia].
  destruct (nth_error (rows (compute_pioneer_weights_simple F)) t) as [wr|] eqn:Ew;
    [|apply nth_error_None in Ew; lia].
  assert (fr = []) as ->.
  { apply length_zero_iff_nil. rewrite <- Hc. exact (wf_row_length F t fr Hwf Ef). }
  assert (wr = []) as ->.
  { apply length_zero_iff_nil. rewrite <- Hc. rewrite Forall_forall in HWf.
    exact (HWf wr (nth_error_In _ _ Ew)). }
  split; [reflexivity|].
  rewrite (nth_error_pooled F _ t [] [] (eq_sym HWr) Ef Ew). reflexivity.
Qed.

Lemma no_expert_pipeline_witness :
  nth_error (rows (compute_pioneer_weights_simple no_expert)) 1 = Some [] /\
  nth_error (pooled_forecast_simple no_expert (compute_pioneer_weights_simple no_expert)) 1
  = Some nan.
Proof.
  apply (no_expert_pipeline no_expert 1).
  - repeat constructor.
  - reflexivity.
  - simpl. lia.
Defined.



(** X13.  The two functions compose over the store: the weight engine and
    then the pooler, run on a store that holds the forecasts, both return;
    the pooled series, the weights and the forecasts are three distinct
    objects; the pooler leaves the weights it was given as the engine made
    them, and nothing that was in the store before is changed. *)
Theorem pipeline_on_store (h : Heap.store) (f : Heap.loc) (F : DataFrame) :
  nth_error h f = Some (Heap.OFrame F) ->
  exists w h1 p h2,
    Heap.compute_pioneer_weights_simple f h = Some (w, h1) /\
    Heap.pooled_forecast_simple f w h1 = Some (p, h2) /\
    nth_error h2 p
    = Some (Heap.OSeries
              (pooled_forecast_simple F (compute_pioneer_weights_simple F))) /\
    nth_error h2 w = Some (Heap.OFrame (compute_pioneer_weights_simple F)) /\
    nth_error h2 f = Some (Heap.OFrame F) /\
    f < w /\ w < p /\
    Heap.preserved h h2.
Proof.
  intros Hf.
  assert (f < length h) as Hfl by (apply nth_error_Some; congruence).
  destruct (compute_returns h f F Hf) as (w & h1 & Hrun & Hw & Hfresh & Hpres).
  assert (nth_error h1 f = Some (Heap.OFrame F)) as Hf1
    by (rewrite (Hpres f Hfl); exact Hf).
  assert (w < length h1) as Hwl by (apply nth_error_Some; congruence).
  assert (f < length h1) as Hfl1 by (apply nth_error_Some; congruence).
  destruct (pooled_returns h1 f w F _ Hf1 Hw) as (p & h2 & Hrun2 & Hp & Hfresh2 & Hpres2).
  exists w, h1, p, h2. repeat split; auto; try lia.
  - rewrite (Hpres2 w Hwl). exact Hw.
  - rewrite (Hpres2 f Hfl1). exact Hf1.
  - intros l Hl. rewrite (Hpres2 l) by lia. exact (Hpres l Hl).
Qed.

Lemma pipeline_on_store_witness :
  exists w h1 p h2,
    Heap.compute_pioneer_weights_simple 0 [Heap.OFrame scenario] = Some (w, h1) /\
    Heap.pooled_forecast_simple 0 w h1 = Some (p, h2) /\
    nth_error h2 0 = Some (Heap.OFrame scenario).
Proof.
  destruct (pipeline_on_store [Heap.OFrame scenario] 0 scenario eq_refl)
    as (w & h1 & p & h2 & H1 & H2 & _ & _ & H5 & _).
  exists w, h1, p, h2. auto.
Defined.

(** ** The weight engine in binary64 *)

Section Binary64.
Import Floats.

Variable add_reduce : list float -> float.

(** *** Two facts of IEEE 754 *)

(** A comparison with NaN on the right is false. *)
Lemma ltb_nan_r (x : float) : PrimFloat.ltb x F64.nan = false.
Proof.
  rewrite FloatAxioms.ltb_spec.
  change (FloatOps.Prim2SF F64.nan) with SpecFloat.S754_nan.
  destruct (FloatOps.Prim2SF x); reflexivity.
Qed.

(** [0.0] divided by anything is a zero or NaN, never positive. *)
Lemma div_zero_not_positive (d : float) :
  PrimFloat.ltb 0%float (PrimFloat.div 0%float d) = false.
Proof.
  rewrite FloatAxioms.ltb_spec, FloatAxioms.div_spec.
  change (FloatOps.Prim2SF 0%float) with (SpecFloat.S754_zero false).
  destruct (FloatOps.Prim2SF d); reflexivity.
Qed.

(** *** Shapes and positions *)

Lemma f64_iloc_shift1_0 X i :
  iloc (F64.shift1 X) 0 i =
  match rows X with
  | [] => None
  | _ :: _ => if i <? columns X then Some F64.nan else None
  end.
Proof.
  unfold iloc, F64.shift1; simpl. destruct (rows X) as [|r rs]; simpl; auto.
  destruct (Nat.ltb_spec i (columns X)) as [H|H].
  - now apply nth_error_repeat_lt.
  - apply nth_error_None. rewrite repeat_length. lia.
Qed.

Lemma f64_iloc_shift1_S X t i :
  iloc (F64.shift1 X) (S t) i = if S t <? length (rows X) then iloc X t i else None.
Proof.
  unfold iloc, F64.shift1; simpl. destruct (rows X) as [|r rs] eqn:E; simpl; auto.
  change (match rs with [] => [] | _ :: _ => r :: removelast rs end)
    with (removelast (r :: rs)).
  destruct (Nat.ltb_spec (S t) (S (length rs))) as [H|H].
  - rewrite nth_error_removelast; simpl; auto.
  - replace (nth_error (removelast (r :: rs)) t) with (@None (list float)); auto.
    symmetry. apply nth_error_None. rewrite removelast_length. simpl. lia.
Qed.


Lemma f64_shift1_map (f : float -> float) X :
  f F64.nan = F64.nan -> F64.shift1 (frame_map f X) = frame_map f (F64.shift1 X).
Proof.
  intros Hf. unfold F64.shift1, frame_map; simpl. f_equal.
  destruct (rows X) as [|r rs] eqn:E; simpl; auto.
  rewrite map_repeat, Hf. f_equal.
  change (match map (map f) rs with
          | [] => []
          | _ :: _ => map f r :: removelast (map (map f) rs)
          end) with (removelast (map (map f) (r :: rs))).
  now rewrite removelast_map.
Qed.

Lemma f64_shift1_map2 (f : float -> float -> float) X Y T N :
  f F64.nan F64.nan = F64.nan -> shape X T N -> shape Y T N ->
  F64.shift1 (frame_map2 f X Y) = frame_map2 f (F64.shift1 X) (F64.shift1 Y).
Proof.
  intros Hf (Hc & Hr & _) (Hc' & Hr' & _). unfold F64.shift1, frame_map2; simpl. f_equal.
  destruct (rows X) as [|r rs] eqn:E, (rows Y) as [|s ss] eqn:E';
    simpl in *; try lia; auto.
  rewrite Hc, Hc', zip_with_repeat, Hf. f_equal.
  change (match zip_with (zip_with f) rs ss with
          | [] => []
          | _ :: _ => zip_with f r s :: removelast (zip_with (zip_with f) rs ss)
          end) with (removelast (zip_with (zip_with f) (r :: rs) (s :: ss))).
  rewrite removelast_zip_with; [reflexivity | simpl; lia].
Qed.

Lemma f64_m_minus_prefix (X : Frame float) k :
  k <= columns X ->
  let M := fold_left
             (fun m_minus col =>
                F64.set_column m_minus col (F64.mean_axis1 add_reduce (F64.drop X col)))
             (seq 0 k) (F64.empty_like X) in
  columns M = columns X /\
  rows M = map (fun r => map (fun i => F64.row_mean add_reduce (drop_at i r)) (seq 0 k)
                         ++ repeat F64.nan (columns X - k))
               (rows X).
Proof.
  induction k as [|k IH]; intros Hk; cbv zeta.
  - simpl. split; [reflexivity|]. now rewrite Nat.sub_0_r.
  - destruct IH as [IHc IHr]; [lia|].
    rewrite seq_S, fold_left_app. simpl Nat.add.
    set (M0 := fold_left _ (seq 0 k) _) in *.
    cbn [fold_left]. unfold F64.set_column. cbn [columns rows]. split; [exact IHc|].
    rewrite IHr. unfold F64.mean_axis1, F64.drop. cbn [rows].
    rewrite map_map, zip_with_map_map.
    apply map_ext. intros r.
    replace (columns X - k) with (S (columns X - S k)) by lia. simpl.
    replace k with (length (map (fun i => F64.row_mean add_reduce (drop_at i r)) (seq 0 k)))
      at 1 by now rewrite length_map, length_seq.
    rewrite set_at_app, map_app. simpl. now rewrite <- app_assoc.
Qed.

Lemma f64_m_minus_rows (X : Frame float) :
  wf X -> rows (F64.m_minus_of add_reduce X) = map (F64.loo_row add_reduce) (rows X).
Proof.
  intros Hwf. unfold F64.m_minus_of.
  destruct (f64_m_minus_prefix X (columns X)) as [_ ->]; [lia|].
  apply map_ext_in. intros r Hr. rewrite Nat.sub_diag. simpl. rewrite app_nil_r.
  unfold F64.loo_row. unfold wf in Hwf. rewrite Forall_forall in Hwf.
  now rewrite (Hwf _ Hr).
Qed.

Lemma f64_m_minus_columns (X : Frame float) :
  columns (F64.m_minus_of add_reduce X) = columns X.
Proof.
  unfold F64.m_minus_of. now destruct (f64_m_minus_prefix X (columns X)) as [-> _].
Qed.

Lemma f64_m_minus_shape (X : Frame float) T N :
  shape X T N -> shape (F64.m_minus_of add_reduce X) T N.
Proof.
  intros HX. pose proof (shape_is_wf _ _ _ HX) as Hwf. destruct HX as (Hc & Hr & Hf).
  repeat split.
  - now rewrite f64_m_minus_columns.
  - now rewrite f64_m_minus_rows, length_map.
  - rewrite f64_m_minus_rows by exact Hwf. apply Forall_map.
    eapply Forall_impl; [|exact Hf]. simpl. intros r Hl.
    unfold F64.loo_row. now rewrite length_map, length_seq.
Qed.

Lemma f64_astype_shape (F : Frame F64.scalar) T N :
  shape F T N -> shape (F64.astype_float F) T N.
Proof. apply shape_map. Qed.


Lemma f64_compute_rows (F : Frame F64.scalar) :
  rows (F64.compute_pioneer_weights_simple add_reduce F)
  = map (F64.normalise add_reduce) (rows (F64.raw_of add_reduce F)).
Proof.
  unfold F64.compute_pioneer_weights_simple. fold (F64.raw_of add_reduce F). cbv zeta.
  unfold F64.div_axis0, F64.replace_zero_nan, F64.sum_axis1. cbn [rows].
  rewrite map_map, zip_with_map_r. reflexivity.
Qed.


(** The frame [raw], position by position. *)
Lemma f64_iloc_raw (F : Frame F64.scalar) t i :
  wf F ->
  let X := F64.astype_float F in
  let M := F64.m_minus_of add_reduce X in
  iloc (F64.raw_of add_reduce F) t i =
  match iloc X t i, iloc M t i, iloc (F64.shift1 X) t i, iloc (F64.shift1 M) t i with
  | Some xt, Some mt, Some xp, Some mp => Some (F64.raw_cell xp mp xt mt)
  | _, _, _, _ => None
  end.
Proof.
  intros Hwf X M. pose proof (f64_astype_shape F _ _ (shape_wf _ Hwf)) as HX.
  fold X in HX. pose proof (f64_m_minus_shape _ _ _ HX) as HM. fold M in HM.
  unfold F64.raw_of. fold X. fold M. cbv zeta.
  unfold F64.where_else0, df_and, F64.df_gt0, F64.df_lt, F64.df_gt, F64.df_div,
    F64.df_add, F64.df_abs, F64.diff, F64.df_sub.
  rewrite (f64_shift1_map PrimFloat.abs) by reflexivity.
  rewrite (f64_shift1_map2 PrimFloat.sub _ _ _ _ eq_refl HX HM).
  repeat (rewrite ?iloc_map2, ?iloc_map).
  destruct (iloc X t i) as [xt|], (iloc M t i) as [mt|],
    (iloc (F64.shift1 X) t i) as [xp|], (iloc (F64.shift1 M) t i) as [mp|];
    reflexivity.
Qed.

(** A raw weight that is not the [0.0] of [where] passed the mask. *)
Lemma f64_raw_cell_mask (xp mp xt mt : float) :
  F64.raw_cell xp mp xt mt = 0%float \/
  (PrimFloat.ltb (PrimFloat.abs (PrimFloat.sub xt mt))
                 (PrimFloat.abs (PrimFloat.sub xp mp)) = true /\
   PrimFloat.ltb (PrimFloat.abs (PrimFloat.sub xt xp))
                 (PrimFloat.abs (PrimFloat.sub mt mp)) = true /\
   PrimFloat.ltb 0%float
     (PrimFloat.add (PrimFloat.abs (PrimFloat.sub mt mp))
                    (PrimFloat.abs (PrimFloat.sub xt xp))) = true).
Proof.
  unfold F64.raw_cell. cbv zeta.
  destruct (PrimFloat.ltb (PrimFloat.abs (PrimFloat.sub xt mt))
                          (PrimFloat.abs (PrimFloat.sub xp mp))); [|now left].
  destruct (PrimFloat.ltb (PrimFloat.abs (PrimFloat.sub xt xp))
                          (PrimFloat.abs (PrimFloat.sub mt mp))); [|now left].
  destruct (PrimFloat.ltb 0%float
              (PrimFloat.add (PrimFloat.abs (PrimFloat.sub mt mp))
                             (PrimFloat.abs (PrimFloat.sub xt xp)))); [|now left].
  right. auto.
Qed.

End Binary64.

Section Binary64Claims.
Import Floats.

(** C2, amended.  Mask soundness on the values the source computes: a
    strictly positive binary64 weight of expert [i] at period [t] implies
    that [t] has a predecessor and that the three tests of the mask held on
    the binary64 values of the float copy [X] and of the leave-one-out means
    [m_minus]: the rounded distance decreased, the rounded move of the
    benchmark exceeds the rounded move of the expert, and the rounded Step 3
    denominator is strictly positive.  This holds whatever the order in
    which numpy adds the terms of a row. *)
Theorem mask_soundness_binary64 (add_reduce : list float -> float)
    (F : Frame F64.scalar) (t i : nat) (w : float) :
  wf F ->
  iloc (F64.compute_pioneer_weights_simple add_reduce F) t i = Some w ->
  PrimFloat.ltb 0%float w = true ->
  let X := F64.astype_float F in
  let m_minus := F64.m_minus_of add_reduce X in
  exists t' xp mp xt mt,
    t = S t' /\
    iloc X t' i = Some xp /\ iloc m_minus t' i = Some mp /\
    iloc X t i = Some xt /\ iloc m_minus t i = Some mt /\
    PrimFloat.ltb (PrimFloat.abs (PrimFloat.sub xt mt))
                  (PrimFloat.abs (PrimFloat.sub xp mp)) = true /\
    PrimFloat.ltb (PrimFloat.abs (PrimFloat.sub xt xp))
                  (PrimFloat.abs (PrimFloat.sub mt mp)) = true /\
    PrimFloat.ltb 0%float
      (PrimFloat.add (PrimFloat.abs (PrimFloat.sub mt mp))
                     (PrimFloat.abs (PrimFloat.sub xt xp))) = true.
Proof.
  intros Hwf Hi Hw X m_minus.
  unfold iloc in Hi. rewrite f64_compute_rows, nth_error_map in Hi.
  destruct (nth_error (rows (F64.raw_of add_reduce F)) t) as [rr|] eqn:Er;
    [|discriminate].
  simpl in Hi. unfold F64.normalise in Hi. rewrite nth_error_map in Hi.
  destruct (nth_error rr i) as [c|] eqn:Ec; [|discriminate].
  injection Hi as <-.
  assert (iloc (F64.raw_of add_reduce F) t i = Some c) as Hraw
    by (unfold iloc; now rewrite Er).
  rewrite (f64_iloc_raw add_reduce F t i Hwf) in Hraw. fold X in Hraw. fold m_minus in Hraw.
  destruct (iloc X t i) as [xt|] eqn:EX; [|discriminate].
  destruct (iloc m_minus t i) as [mt|] eqn:EM; [|discriminate].
  destruct (iloc (F64.shift1 X) t i) as [xp|] eqn:EXp; [|discriminate].
  destruct (iloc (F64.shift1 m_minus) t i) as [mp|] eqn:EMp; [|discriminate].
  injection Hraw as <-.
  destruct (f64_raw_cell_mask xp mp xt mt) as [E|(H1 & H2 & H3)].
  - rewrite E, div_zero_not_positive in Hw. discriminate.
  - destruct t as [|t'].
    + exfalso. rewrite f64_iloc_shift1_0 in EXp, EMp.
      destruct (rows X); [discriminate|].
      destruct (rows m_minus); [discriminate|].
      destruct (i <? columns X); [|discriminate].
      destruct (i <? columns m_minus); [|discriminate].
      injection EXp as <-. injection EMp as <-.
      change (PrimFloat.abs (PrimFloat.sub F64.nan F64.nan)) with F64.nan in H1.
      rewrite ltb_nan_r in H1. discriminate.
    + rewrite f64_iloc_shift1_S in EXp, EMp.
      destruct (S t' <? length (rows X)); [|discriminate].
      destruct (S t' <? length (rows m_minus)); [|discriminate].
      exists t', xp, mp, xt, mt. auto 10.
Qed.

Lemma mask_soundness_binary64_witness :
  wf F64.tie_forecasts /\
  iloc (F64.compute_pioneer_weights_simple F64.sum_left F64.tie_forecasts) 1 3
  = Some 0x1p-1%float /\
  PrimFloat.ltb 0%float 0x1p-1%float = true /\
  exists t' xp mp xt mt,
    1 = S t' /\
    iloc (F64.astype_float F64.tie_forecasts) t' 3 = Some xp /\
    iloc (F64.m_minus_of F64.sum_left (F64.astype_float F64.tie_forecasts)) t' 3
    = Some mp /\
    iloc (F64.astype_float F64.tie_forecasts) 1 3 = Some xt /\
    iloc (F64.m_minus_of F64.sum_left (F64.astype_float F64.tie_forecasts)) 1 3
    = Some mt /\
    PrimFloat.ltb (PrimFloat.abs (PrimFloat.sub xt mt))
                  (PrimFloat.abs (PrimFloat.sub xp mp)) = true /\
    PrimFloat.ltb (PrimFloat.abs (PrimFloat.sub xt xp))
                  (PrimFloat.abs (PrimFloat.sub mt mp)) = true /\
    PrimFloat.ltb 0%float
      (PrimFloat.add (PrimFloat.abs (PrimFloat.sub mt mp))
                     (PrimFloat.abs (PrimFloat.sub xt xp))) = true.
Proof.
  assert (wf F64.tie_forecasts) as Hwf by (repeat constructor).
  assert (iloc (F64.compute_pioneer_weights_simple F64.sum_left F64.tie_forecasts) 1 3
          = Some 0x1p-1%float) as Hi by (vm_compute; reflexivity).
  assert (PrimFloat.ltb 0%float 0x1p-1%float = true) as Hw by reflexivity.
  split; [exact Hwf|]. split; [exact Hi|]. split; [exact Hw|].
  exact (mask_soundness_binary64 F64.sum_left F64.tie_forecasts 1 3 0x1p-1%float
           Hwf Hi Hw).
Defined.

(** The claim C2 as stated (the conditions on the real values) fails on the
    source: on the forecasts 0, 0, 2, 1 then 2, 0, 2, 1 the last expert has
    weight 0.5 at period 1, while its distance to the mean of the others is
    exactly 1/3 at both periods; only the rounded distances differ. *)
Lemma mask_soundness_exact_counterexample :
  map (map (fun f => option_map Qred (F64.to_Q f)))
      (rows (F64.astype_float F64.tie_forecasts))
  = map (map (option_map Qred)) (rows tie_forecasts_exact) /\
  iloc (F64.compute_pioneer_weights_simple F64.sum_left F64.tie_forecasts) 1 3
  = Some 0x1p-1%float /\
  PrimFloat.ltb 0%float 0x1p-1%float = true /\
  exists xp mp xt mt,
    iloc tie_forecasts_exact 0 3 = Some (Some xp) /\
    iloc (m_minus_of tie_forecasts_exact) 0 3 = Some (Some mp) /\
    iloc tie_forecasts_exact 1 3 = Some (Some xt) /\
    iloc (m_minus_of tie_forecasts_exact) 1 3 = Some (Some mt) /\
    (Qabs (xt - mt) == 1 # 3)%Q /\ (Qabs (xp - mp) == 1 # 3)%Q /\
    ~ (Qabs (xt - mt) < Qabs (xp - mp))%Q.
Proof.
  split; [vm_compute; reflexivity|].
  split; [vm_compute; reflexivity|].
  split; [reflexivity|].
  do 4 eexists.
  split; [vm_compute; reflexivity|].
  split; [vm_compute; reflexivity|].
  split; [vm_compute; reflexivity|].
  split; [vm_compute; reflexivity|].
  split; [reflexivity|]. split; [reflexivity|].
  intros H. vm_compute in H. discriminate H.
Qed.




End Binary64Claims.
